(** * Noha: inter-agent messaging (src/test_agents.py)

    A shallow embedding of the messaging core: the [Message] model, the
    bounded per-agent [queue.Queue] mailbox, [BaseAgent.send_message],
    [BaseAgent.receive_message], the [process_messages] drain loop, the
    role handlers and the streamed-response assembly of
    [generate_question] / [generate_answer].

    Python strings are modelled as Rocq strings whose characters are read
    as code points U+0000..U+00FF.  Raised exceptions are the [Err] branch
    of [result]. *)

From Stdlib Require Import String Ascii List Bool ZArith NArith Lia.
Import ListNotations.
Open Scope string_scope.
Set Warnings "-register-all".

(** ** Exceptions and results *)

Inductive exn : Type :=
| CommunicationError (msg : string)
| QueueFullError (msg : string)
| OllamaError (msg : string)
| NotImplementedError
| JSONDecodeError            (** json.decoder.JSONDecodeError *)
| TypeError                  (** e.g. [str += int], [list['response']] *)
| HTTPXError (msg : string)  (** timeouts and transport failures of httpx *)
| KeyError
| ValidationError.           (** pydantic.ValidationError *)

(** The classes of the closed taxonomy declared in the source: subclasses
    of [AgentError]. *)
Definition is_agent_error (e : exn) : bool :=
  match e with
  | CommunicationError _ | QueueFullError _ | OllamaError _ => true
  | _ => false
  end.

Inductive result (A : Type) : Type :=
| Ok (a : A)
| Err (e : exn).
Arguments Ok {A} a.
Arguments Err {A} e.

Definition bind {A B} (r : result A) (k : A -> result B) : result B :=
  match r with
  | Ok a => k a
  | Err e => Err e
  end.
Notation "x <- r ;; k" := (bind r (fun x => k))
  (at level 61, r at next level, right associativity).

(** ** Message (lines 9-15) *)

Record Message : Type := mkMessage {
  sender_id : string;
  receiver_id : string;
  content : string;
  message_type : string;
  timestamp : string
}.

(** [datetime.now()]: the instant is an input of the model. *)
Record datetime : Type := mkDatetime {
  year : N; month : N; day : N;
  hour : N; minute : N; second : N; microsecond : N
}.

Definition digit (n : N) : ascii := ascii_of_N (48 + n mod 10)%N.

(** The [w] lowest decimal digits of [n], zero padded. *)
Fixpoint pad (w : nat) (n : N) : string :=
  match w with
  | O => EmptyString
  | S w' => pad w' (n / 10)%N ++ String (digit n) EmptyString
  end.

(** [datetime.isoformat()]: [YYYY-MM-DDTHH:MM:SS] followed by
    [.ffffff] when the microseconds are not zero. *)
Definition isoformat (d : datetime) : string :=
  pad 4 (year d) ++ "-" ++ pad 2 (month d) ++ "-" ++ pad 2 (day d) ++ "T" ++
  pad 2 (hour d) ++ ":" ++ pad 2 (minute d) ++ ":" ++ pad 2 (second d) ++
  (if N.eqb (microsecond d) 0 then "" else "." ++ pad 6 (microsecond d)).

(** [Message(sender_id=..., receiver_id=..., content=..., message_type=...)].
    The pydantic model declares every field as [str] with no validator, so
    construction from strings cannot fail; an omitted [message_type] is
    ["general"] and [timestamp] comes from the default factory. *)
Definition Message_new (sender receiver body : string) (mtype : option string)
    (now : datetime) : result Message :=
  Ok {| sender_id := sender; receiver_id := receiver; content := body;
        message_type := match mtype with Some t => t | None => "general" end;
        timestamp := isoformat now |}.

(** ** BaseAgent (lines 33-40) *)

Record BaseAgent : Type := mkAgent {
  agent_id : string;
  model : string;
  max_queue_size : Z;            (** [Queue(maxsize=...)]; [<= 0] is unbounded *)
  message_queue : list Message;  (** head = next [get()] *)
  base_url : string
}.

(** [BaseAgent(agent_id, model="mistral", max_queue_size=100)]; the httpx
    timeout only shapes the backend's behaviour, which is an input here. *)
Definition BaseAgent_new (id : string) (m : option string) (size : option Z)
    : BaseAgent :=
  {| agent_id := id;
     model := match m with Some s => s | None => "mistral" end;
     max_queue_size := match size with Some z => z | None => 100%Z end;
     message_queue := [];
     base_url := "http://localhost:11434" |}.

Definition set_queue (a : BaseAgent) (q : list Message) : BaseAgent :=
  {| agent_id := agent_id a; model := model a;
     max_queue_size := max_queue_size a; message_queue := q;
     base_url := base_url a |}.

(** [Queue.full()]: [0 < self.maxsize <= self._qsize()]. *)
Definition queue_full (a : BaseAgent) : bool :=
  (0 <? max_queue_size a)%Z &&
  (max_queue_size a <=? Z.of_nat (length (message_queue a)))%Z.

(** [Queue.empty()]: [not self._qsize()]. *)
Definition queue_empty (a : BaseAgent) : bool :=
  match message_queue a with [] => true | _ => false end.

(** ** send_message (lines 42-54) *)

Definition exn_str (e : exn) : string :=
  match e with
  | CommunicationError s | QueueFullError s | OllamaError s | HTTPXError s => s
  | NotImplementedError => ""
  | KeyError => "KeyError"
  | JSONDecodeError => "JSONDecodeError"
  | TypeError => "TypeError"
  | ValidationError => "ValidationError"
  end.

Definition send_message (a : BaseAgent) (to_agent_id body : string)
    (mtype : option string) (now : datetime) : result Message :=
  let mt := match mtype with Some t => t | None => "general" end in
  match Message_new (agent_id a) to_agent_id body (Some mt) now with
  | Ok m => Ok m
  | Err e => Err (CommunicationError ("Failed to send message: " ++ exn_str e))
  end.

(** ** receive_message (lines 56-66)

    The agent after the call is returned with the outcome of the call, so
    that what a failed call leaves behind is explicit. *)
Definition receive_message (a : BaseAgent) (m : Message) : BaseAgent * result unit :=
  if negb (String.eqb (receiver_id m) (agent_id a)) then
    (a, Err (CommunicationError ("Message intended for " ++ receiver_id m ++
                                 ", not " ++ agent_id a)))
  else if queue_full a then
    (a, Err (QueueFullError ("Message queue full for agent " ++ agent_id a)))
  else
    (set_queue a (message_queue a ++ [m])%list, Ok tt).

(** Successive [receive_message] calls, with their outcomes. *)
Fixpoint receive_all (a : BaseAgent) (ms : list Message)
    : BaseAgent * list (result unit) :=
  match ms with
  | [] => (a, [])
  | m :: ms' =>
      let '(a1, r) := receive_message a m in
      let '(a2, rs) := receive_all a1 ms' in
      (a2, r :: rs)
  end.

Definition all_ok (rs : list (result unit)) : bool :=
  forallb (fun r => match r with Ok _ => true | Err _ => false end) rs.

(** ** process_messages (lines 68-72)

    [while not self.message_queue.empty(): message = self.message_queue.get();
    await self._handle_message(message)].

    A handler sees the agent it runs on ([self]) and yields, besides its
    outcome, the messages that reach [receive_message] of this agent while
    it is suspended (from the handler itself or from other tasks).  A
    delivery refused by [receive_message] raises in the task that made it,
    not in this loop.  The handler's return value is awaited and dropped,
    as in the source.  The trace records each admission and each dispatch
    in the order they happen; [fuel] bounds the number of iterations and
    [OutOfFuel] is the model's own outcome, not a behaviour of the code. *)

Inductive event : Type :=
| Enqueued (m : Message)
| Dispatched (m : Message).

Inductive outcome : Type :=
| Done
| Raised (e : exn)
| OutOfFuel.

Fixpoint deliver (a : BaseAgent) (ms : list Message) : BaseAgent * list event :=
  match ms with
  | [] => (a, [])
  | m :: ms' =>
      let '(a1, r) := receive_message a m in
      let ev := match r with Ok _ => [Enqueued m] | Err _ => [] end in
      let '(a2, evs) := deliver a1 ms' in
      (a2, (ev ++ evs)%list)
  end.

Section Drain.
Context {R : Type}.
Variable handler : BaseAgent -> Message -> list Message * result R.

Fixpoint process_messages (fuel : nat) (a : BaseAgent)
    : BaseAgent * list event * outcome :=
  match fuel with
  | O => (a, [], OutOfFuel)
  | S fuel' =>
      match message_queue a with
      | [] => (a, [], Done)
      | m :: rest =>
          let a0 := set_queue a rest in
          let '(arrivals, r) := handler a0 m in
          let '(a1, evs) := deliver a0 arrivals in
          match r with
          | Err e => (a1, Dispatched m :: evs, Raised e)
          | Ok _ =>
              let '(a2, tr, o) := process_messages fuel' a1 in
              (a2, Dispatched m :: (evs ++ tr)%list, o)
          end
      end
  end.
End Drain.

Definition dispatched (tr : list event) : list Message :=
  flat_map (fun ev => match ev with Dispatched m => [m] | Enqueued _ => [] end) tr.
Definition enqueued (tr : list event) : list Message :=
  flat_map (fun ev => match ev with Enqueued m => [m] | Dispatched _ => [] end) tr.

(** The handler calls of a drain during which nothing reaches the
    mailbox: the mailbox holding [pre ++ rest], [runs_ok h a pre rest]
    says that the handler returns normally on each message of [pre], each
    call seeing the agent whose mailbox holds what follows that message. *)
Fixpoint runs_ok {R : Type} (h : BaseAgent -> Message -> list Message * result R)
    (a : BaseAgent) (pre rest : list Message) : Prop :=
  match pre with
  | [] => True
  | x :: pre' =>
      (exists v, snd (h (set_queue a (pre' ++ rest)%list) x) = Ok v) /\
      runs_ok h a pre' rest
  end.

(** [loop_reaches h fuel a tr fuel' a']: started as
    [process_messages h fuel a], the [while] loop comes back to its test
    with agent [a'] and [fuel'] iterations left, after emitting [tr], every
    handler awaited so far having returned normally. *)
Inductive loop_reaches {R : Type} (h : BaseAgent -> Message -> list Message * result R)
    : nat -> BaseAgent -> list event -> nat -> BaseAgent -> Prop :=
| reaches_here : forall fuel a, loop_reaches h fuel a [] fuel a
| reaches_step : forall fuel a m rest arr v a1 evs tr fuel' a',
    message_queue a = m :: rest ->
    h (set_queue a rest) m = (arr, Ok v) ->
    deliver (set_queue a rest) arr = (a1, evs) ->
    loop_reaches h fuel a1 tr fuel' a' ->
    loop_reaches h (S fuel) a (Dispatched m :: evs ++ tr)%list fuel' a'.

(** ** Python string helpers *)

(** [str.isspace] on U+0000..U+00FF. *)
Definition is_space (c : ascii) : bool :=
  let n := nat_of_ascii c in
  (Nat.leb 9 n && Nat.leb n 13) || (Nat.leb 28 n && Nat.leb n 32) ||
  Nat.eqb n 133 || Nat.eqb n 160.

Fixpoint lstrip (s : string) : string :=
  match s with
  | EmptyString => EmptyString
  | String c s' => if is_space c then lstrip s' else s
  end.

Fixpoint rstrip (s : string) : string :=
  match s with
  | EmptyString => EmptyString
  | String c s' =>
      let r := rstrip s' in
      if String.eqb r "" && is_space c then "" else String c r
  end.

(** [str.strip()] *)
Definition strip (s : string) : string := rstrip (lstrip s).

Definition newline : ascii := ascii_of_nat 10.

(** [str.split('\n')] *)
Fixpoint split_nl (s : string) : list string :=
  match s with
  | EmptyString => [""]
  | String c s' =>
      let rest := split_nl s' in
      if Ascii.eqb c newline then "" :: rest
      else match rest with
           | r :: rs => String c r :: rs
           | [] => [String c ""]
           end
  end.

(** [needle in haystack] for two [str]. *)
Fixpoint str_contains (needle hay : string) : bool :=
  String.prefix needle hay ||
  match hay with
  | EmptyString => false
  | String _ hay' => str_contains needle hay'
  end.

(** ** Decoded JSON values, as [json.loads] returns them *)

Inductive json : Type :=
| JNull
| JBool (b : bool)
| JNum (lexeme : string)
| JStr (s : string)
| JArr (l : list json)
| JObj (kvs : list (string * json)).  (** the members in source order *)

(** [key in data]. *)
Definition py_contains (key : string) (d : json) : result bool :=
  match d with
  | JObj kvs => Ok (existsb (fun kv => String.eqb (fst kv) key) kvs)
  | JArr l => Ok (existsb (fun v => match v with JStr s => String.eqb s key | _ => false end) l)
  | JStr s => Ok (str_contains key s)
  | _ => Err TypeError
  end.

(** [data[key]] with a [str] key; a decoded object keeps the last of
    duplicate members. *)
Definition py_getitem (d : json) (key : string) : result json :=
  match d with
  | JObj kvs =>
      match find (fun kv => String.eqb (fst kv) key) (rev kvs) with
      | Some kv => Ok (snd kv)
      | None => Err KeyError
      end
  | _ => Err TypeError
  end.

(** [acc += v] with [acc : str]. *)
Definition py_iadd_str (acc : string) (v : json) : result string :=
  match v with
  | JStr s => Ok (acc ++ s)
  | _ => Err TypeError
  end.

(** ** Generation client (lines 80-100 and 108-127)

    [json.loads] and the HTTP backend are parameters: [backend url model
    prompt] is [response.text] or the exception httpx raises. *)

Section Generation.
Variable json_loads : string -> result json.
Variable backend : string -> string -> string -> result string.

(** The [for line in ...] loop with its accumulator. *)
Fixpoint assemble (acc : string) (lines : list string) : result string :=
  match lines with
  | [] => Ok acc
  | line :: rest =>
      if String.eqb line "" then assemble acc rest
      else
        data <- json_loads line ;;
        has <- py_contains "response" data ;;
        if has then
          v <- py_getitem data "response" ;;
          acc' <- py_iadd_str acc v ;;
          assemble acc' rest
        else assemble acc rest
  end.

Definition read_stream (text : string) : result string :=
  s <- assemble "" (split_nl (strip text)) ;;
  Ok (strip s).

Definition generate_question (a : BaseAgent) (topic : string) : result string :=
  text <- backend (base_url a ++ "/api/generate") (model a)
                  ("Generate a thought-provoking question about: " ++ topic) ;;
  read_stream text.

Definition generate_answer (a : BaseAgent) (question : string) : result string :=
  text <- backend (base_url a ++ "/api/generate") (model a)
                  ("Please answer this question: " ++ question) ;;
  read_stream text.

(** ** Role handlers ([_handle_message], lines 74-76, 102-104, 129-139) *)

Inductive role : Type := BaseRole | QuestionRole | AnswerRole.

Definition handle_message (r : role) (now : datetime) (a : BaseAgent)
    (m : Message) : result (option Message) :=
  match r with
  | BaseRole => Err NotImplementedError
  | QuestionRole => Ok None
  | AnswerRole =>
      if String.eqb (message_type m) "question" then
        answer <- generate_answer a (content m) ;;
        reply <- send_message a (sender_id m) answer (Some "answer") now ;;
        Ok (Some reply)
      else Ok None
  end.

(** The handler of an agent of role [r] when nothing else reaches its
    mailbox during the drain. *)
Definition role_handler (r : role) (now : datetime)
    : BaseAgent -> Message -> list Message * result (option Message) :=
  fun a m => ([], handle_message r now a m).
End Generation.

(** ** test_qa_agents (lines 162-183)

    The questioner generates a question, sends it to the answerer, which
    receives it and drains its mailbox.  The mailbox then holds one message
    and nothing else reaches it, so the loop runs at most two iterations. *)
Definition test_qa_agents (json_loads : string -> result json)
    (backend : string -> string -> string -> result string) (now : datetime)
    : result BaseAgent :=
  let questioner := BaseAgent_new "questioner" None None in
  let answerer := BaseAgent_new "answerer" None None in
  question <- generate_question json_loads backend questioner "python programming" ;;
  question_message <- send_message questioner "answerer" question (Some "question") now ;;
  let '(answerer1, r) := receive_message answerer question_message in
  _ <- r ;;
  let '(answerer2, _, o) :=
    process_messages (role_handler json_loads backend AnswerRole now) 2 answerer1 in
  match o with
  | Raised e => Err e
  | _ => Ok answerer2
  end.

(** ** A JSON decoder to run the model on concrete responses

    The theorems below hold for every [json_loads].  To evaluate the client
    on concrete backend responses, [json_decode] follows the grammar
    accepted by [json.loads] (strict mode: whitespace is space, tab, LF and
    CR; [NaN], [Infinity] and [-Infinity] are accepted; a trailing
    document or an unescaped control character in a string is an error).
    A [\u] escape is accepted below U+0100 only, the range the
    model's strings can hold. *)

Module JsonDecode.

Definition code (c : ascii) : nat := nat_of_ascii c.
Definition is_json_ws (c : ascii) : bool :=
  let n := code c in Nat.eqb n 32 || Nat.eqb n 9 || Nat.eqb n 10 || Nat.eqb n 13.
Definition is_digit (c : ascii) : bool :=
  Nat.leb 48 (code c) && Nat.leb (code c) 57.
Definition chr (n : nat) : ascii := ascii_of_nat n.

Fixpoint skip_ws (s : string) : string :=
  match s with
  | String c s' => if is_json_ws c then skip_ws s' else s
  | EmptyString => EmptyString
  end.

(** The longest prefix of decimal digits, and the rest. *)
Fixpoint digits (s : string) : string * string :=
  match s with
  | String c s' =>
      if is_digit c then let '(ds, r) := digits s' in (String c ds, r)
      else (EmptyString, s)
  | EmptyString => (EmptyString, EmptyString)
  end.

(** A number: optional minus, [0] or a non-zero digit and more digits,
    optional fraction [.digits], optional exponent [e|E] [+|-] digits. *)
Definition lex_number (s : string) : option (string * string) :=
  let '(sign, s1) :=
    match s with
    | String c s' => if Ascii.eqb c "-"%char then ("-", s') else ("", s)
    | EmptyString => ("", s)
    end in
  let int_part :=
    match s1 with
    | String c s2 =>
        if Ascii.eqb c "0"%char then Some ("0", s2)
        else if is_digit c then let '(ds, r) := digits s2 in Some (String c ds, r)
        else None
    | EmptyString => None
    end in
  match int_part with
  | None => None
  | Some (ip, s3) =>
      let '(fp, s4) :=
        match s3 with
        | String c r =>
            if Ascii.eqb c "."%char then
              let '(ds, r') := digits r in
              if String.eqb ds "" then ("", s3) else ("." ++ ds, r')
            else ("", s3)
        | EmptyString => ("", s3)
        end in
      let '(ep, s5) :=
        match s4 with
        | String e r =>
            if Ascii.eqb e "e"%char || Ascii.eqb e "E"%char then
              let '(sg, r1) :=
                match r with
                | String c r' =>
                    if Ascii.eqb c "+"%char || Ascii.eqb c "-"%char
                    then (String c EmptyString, r') else ("", r)
                | EmptyString => ("", r)
                end in
              let '(ds, r2) := digits r1 in
              if String.eqb ds "" then ("", s4) else (String e sg ++ ds, r2)
            else ("", s4)
        | EmptyString => ("", s4)
        end in
      Some (sign ++ ip ++ fp ++ ep, s5)
  end.

Definition hex_val (c : ascii) : option nat :=
  let n := code c in
  if Nat.leb 48 n && Nat.leb n 57 then Some (n - 48)
  else if Nat.leb 97 n && Nat.leb n 102 then Some (n - 87)
  else if Nat.leb 65 n && Nat.leb n 70 then Some (n - 55)
  else None.

Definition hex4 (s : string) : option (nat * string) :=
  match s with
  | String a (String b (String c (String d r))) =>
      match hex_val a, hex_val b, hex_val c, hex_val d with
      | Some x, Some y, Some z, Some w => Some (((x * 16 + y) * 16 + z) * 16 + w, r)
      | _, _, _, _ => None
      end
  | _ => None
  end.

(** The body of a string literal after its opening quote. *)
Fixpoint lex_string (fuel : nat) (s : string) : option (string * string) :=
  match fuel with
  | O => None
  | S f =>
      match s with
      | EmptyString => None
      | String c s' =>
          if Ascii.eqb c (chr 34) then Some (EmptyString, s')
          else if Nat.ltb (code c) 32 then None
          else if Ascii.eqb c (chr 92) then
            match s' with
            | EmptyString => None
            | String e r =>
                let simple :=
                  if Ascii.eqb e (chr 34) then Some (chr 34)
                  else if Ascii.eqb e (chr 92) then Some (chr 92)
                  else if Ascii.eqb e "/"%char then Some "/"%char
                  else if Ascii.eqb e "b"%char then Some (chr 8)
                  else if Ascii.eqb e "f"%char then Some (chr 12)
                  else if Ascii.eqb e "n"%char then Some (chr 10)
                  else if Ascii.eqb e "r"%char then Some (chr 13)
                  else if Ascii.eqb e "t"%char then Some (chr 9)
                  else None in
                match simple with
                | Some x =>
                    match lex_string f r with
                    | Some (body, rest) => Some (String x body, rest)
                    | None => None
                    end
                | None =>
                    if Ascii.eqb e "u"%char then
                      match hex4 r with
                      | Some (n, r') =>
                          if Nat.ltb n 256 then
                            match lex_string f r' with
                            | Some (body, rest) => Some (String (chr n) body, rest)
                            | None => None
                            end
                          else None
                      | None => None
                      end
                    else None
                end
            end
          else
            match lex_string f s' with
            | Some (body, rest) => Some (String c body, rest)
            | None => None
            end
      end
  end.

Definition keyword (kw : string) (s : string) : option string :=
  if String.prefix kw s then Some (substring (String.length kw) (String.length s) s)
  else None.

Fixpoint parse_value (fuel : nat) (s : string) : option (json * string) :=
  match fuel with
  | O => None
  | S f =>
      match s with
      | EmptyString => None
      | String c s' =>
          if Ascii.eqb c (chr 34) then
            match lex_string (String.length s') s' with
            | Some (body, r) => Some (JStr body, r)
            | None => None
            end
          else if Ascii.eqb c "{"%char then
            match skip_ws s' with
            | String d r => if Ascii.eqb d "}"%char then Some (JObj [], r)
                            else parse_members f (String d r) []
            | EmptyString => None
            end
          else if Ascii.eqb c "["%char then
            match skip_ws s' with
            | String d r => if Ascii.eqb d "]"%char then Some (JArr [], r)
                            else parse_elems f (String d r) []
            | EmptyString => None
            end
          else
            match keyword "null" s with Some r => Some (JNull, r) | None =>
            match keyword "true" s with Some r => Some (JBool true, r) | None =>
            match keyword "false" s with Some r => Some (JBool false, r) | None =>
            match lex_number s with Some (lx, r) => Some (JNum lx, r) | None =>
            match keyword "NaN" s with Some r => Some (JNum "NaN", r) | None =>
            match keyword "Infinity" s with Some r => Some (JNum "Infinity", r) | None =>
            match keyword "-Infinity" s with Some r => Some (JNum "-Infinity", r) | None =>
            None end end end end end end end
      end
  end
with parse_elems (fuel : nat) (s : string) (acc : list json)
    : option (json * string) :=
  match fuel with
  | O => None
  | S f =>
      match parse_value f s with
      | None => None
      | Some (v, r) =>
          match skip_ws r with
          | String d r' =>
              if Ascii.eqb d ","%char then parse_elems f (skip_ws r') (v :: acc)
              else if Ascii.eqb d "]"%char then Some (JArr (rev (v :: acc)), r')
              else None
          | EmptyString => None
          end
      end
  end
with parse_members (fuel : nat) (s : string) (acc : list (string * json))
    : option (json * string) :=
  match fuel with
  | O => None
  | S f =>
      match s with
      | String q s' =>
          if Ascii.eqb q (chr 34) then
            match lex_string (String.length s') s' with
            | None => None
            | Some (key, r) =>
                match skip_ws r with
                | String colon r1 =>
                    if Ascii.eqb colon ":"%char then
                      match parse_value f (skip_ws r1) with
                      | None => None
                      | Some (v, r2) =>
                          match skip_ws r2 with
                          | String d r3 =>
                              if Ascii.eqb d ","%char then
                                parse_members f (skip_ws r3) ((key, v) :: acc)
                              else if Ascii.eqb d "}"%char then
                                Some (JObj (rev ((key, v) :: acc)), r3)
                              else None
                          | EmptyString => None
                          end
                      end
                    else None
                | EmptyString => None
                end
            end
          else None
      | EmptyString => None
      end
  end.

(** [json.loads(s)] for a [str]: a value between optional whitespace. *)
Definition json_decode (s : string) : result json :=
  match parse_value (2 * String.length s + 2) (skip_ws s) with
  | Some (v, r) => if String.eqb (skip_ws r) "" then Ok v else Err JSONDecodeError
  | None => Err JSONDecodeError
  end.

End JsonDecode.

(** ** Reachable agent states

    An agent is created with an empty queue and changes only through
    [receive_message] and [process_messages] (with any handler). *)
Inductive reachable : BaseAgent -> Prop :=
| reach_new : forall id mdl size url, reachable (mkAgent id mdl size [] url)
| reach_receive : forall a m, reachable a -> reachable (fst (receive_message a m))
| reach_process : forall (R : Type) (h : BaseAgent -> Message -> list Message * result R)
    fuel a, reachable a -> reachable (fst (fst (process_messages h fuel a))).

(** The bound [queue.Queue] keeps: unbounded when [maxsize <= 0],
    otherwise at most [maxsize] items. *)
Definition within_capacity (a : BaseAgent) : Prop :=
  (max_queue_size a <= 0)%Z \/
  (Z.of_nat (length (message_queue a)) <= max_queue_size a)%Z.

(** ** The spec's reading of a streamed reply (section 4.6)

    A record's fragment is the text under its [response] field (the value a
    decoded object keeps for that key); a record without the field adds
    nothing.  The reply is the in-order concatenation, trimmed. *)
Definition response_field (kvs : list (string * json)) : option json :=
  match find (fun kv => String.eqb (fst kv) "response") (rev kvs) with
  | Some kv => Some (snd kv)
  | None => None
  end.

(** A record whose [response] field, when present, is text. *)
Definition record_ok (kvs : list (string * json)) : bool :=
  match response_field kvs with
  | Some (JStr _) | None => true
  | Some _ => false
  end.

Definition spec_fragment (kvs : list (string * json)) : string :=
  match response_field kvs with
  | Some (JStr s) => s
  | _ => ""
  end.

Definition spec_stream_text (recs : list (list (string * json))) : string :=
  strip (String.concat "" (map spec_fragment recs)).

Definition has_newline (s : string) : bool :=
  existsb (Ascii.eqb newline) (list_ascii_of_string s).

Definition all_space (s : string) : bool :=
  forallb is_space (list_ascii_of_string s).

(** Building JSON text: [q] is the double-quote character. *)
Definition q : string := String (ascii_of_nat 34) EmptyString.
Definition jstr (s : string) : string := q ++ s ++ q.
Definition nl : string := String newline EmptyString.


(** ** Concrete inputs *)

Definition example_now : datetime := mkDatetime 2024 11 5 14 30 0 123456.

(** Three lines as the backend streams them: two carry the fragments
    [Hel] and [lo], the closing one has no [response] field. *)
Definition line_hel : string :=
  "{" ++ jstr "model" ++ ":" ++ jstr "mistral" ++ "," ++
  jstr "response" ++ ":" ++ jstr "Hel" ++ "," ++ jstr "done" ++ ":false}".
Definition line_lo : string :=
  "{" ++ jstr "model" ++ ":" ++ jstr "mistral" ++ "," ++
  jstr "response" ++ ":" ++ jstr "lo" ++ "," ++ jstr "done" ++ ":false}".
Definition line_done : string :=
  "{" ++ jstr "model" ++ ":" ++ jstr "mistral" ++ "," ++ jstr "done" ++ ":true}".

Definition stream_hello : string :=
  line_hel ++ nl ++ line_lo ++ nl ++ line_done ++ nl.

Definition backend_hello : string -> string -> string -> result string :=
  fun _ _ _ => Ok stream_hello.

Definition backend_garbled : string -> string -> string -> result string :=
  fun _ _ _ => Ok ("not json" ++ nl).

Definition msg_first : Message :=
  {| sender_id := "agent1"; receiver_id := "agent2"; content := "first";
     message_type := "general"; timestamp := isoformat example_now |}.
Definition msg_second : Message :=
  {| sender_id := "agent1"; receiver_id := "agent2"; content := "second";
     message_type := "general"; timestamp := isoformat example_now |}.

(** A [BaseAgent("agent2")] holding two messages. *)
Definition agent2_two : BaseAgent :=
  set_queue (BaseAgent_new "agent2" None None) [msg_first; msg_second].

(** A backend that times out. *)
Definition backend_down : string -> string -> string -> result string :=
  fun _ _ _ => Err (HTTPXError "timed out").

(** The overflow test of [test_error_handling]: a mailbox of size 1. *)
Definition test_agent_size1 : BaseAgent :=
  mkAgent "test_agent" "mistral" 1 [] "http://localhost:11434".
Definition msg1 : Message :=
  {| sender_id := "sender"; receiver_id := "test_agent"; content := "msg1";
     message_type := "general"; timestamp := isoformat example_now |}.
Definition msg2 : Message :=
  {| sender_id := "sender"; receiver_id := "test_agent"; content := "msg2";
     message_type := "general"; timestamp := isoformat example_now |}.

(** The question of the Q/A round trip, as [questioner.send_message] builds it. *)
Definition question_msg : Message :=
  {| sender_id := "questioner"; receiver_id := "answerer";
     content := "What is a generator?"; message_type := "question";
     timestamp := isoformat example_now |}.

Definition answerer_with_question : BaseAgent :=
  set_queue (BaseAgent_new "answerer" None None) [question_msg].

(** An answer agent holding a plain note, then the question. *)
Definition note_msg : Message :=
  {| sender_id := "questioner"; receiver_id := "answerer"; content := "note";
     message_type := "general"; timestamp := isoformat example_now |}.
Definition answerer_two : BaseAgent :=
  set_queue (BaseAgent_new "answerer" None None) [note_msg; question_msg].

Example json_decode_obj :
  JsonDecode.json_decode ("{" ++ jstr "response" ++ ": " ++ jstr "Hel" ++ ", " ++
                          jstr "done" ++ ":false}")
  = Ok (JObj [("response", JStr "Hel"); ("done", JBool false)]).
Proof. reflexivity. Qed.

Example json_decode_nested :
  JsonDecode.json_decode (" [1, -2.5e3, null, {" ++ jstr "a" ++ ":[]}] ")
  = Ok (JArr [JNum "1"; JNum "-2.5e3"; JNull; JObj [("a", JArr [])]]).
Proof. reflexivity. Qed.

Example json_decode_bad : JsonDecode.json_decode "not json" = Err JSONDecodeError.
Proof. reflexivity. Qed.

Example json_decode_trailing_comma : JsonDecode.json_decode "[1,]" = Err JSONDecodeError.
Proof. reflexivity. Qed.

Example split_nl_ex : split_nl ("a" ++ nl ++ nl ++ "b") = ["a"; ""; "b"].
Proof. reflexivity. Qed.

Example strip_ex : strip ("  Hello " ++ nl) = "Hello".
Proof. reflexivity. Qed.

(** * Lemmas on the mailbox *)

Lemma set_queue_same (a : BaseAgent) : set_queue a (message_queue a) = a.
Proof. destruct a; reflexivity. Qed.

Lemma set_queue_twice (a : BaseAgent) q1 q2 :
  set_queue (set_queue a q1) q2 = set_queue a q2.
Proof. destruct a; reflexivity. Qed.

Lemma set_queue_queue (a : BaseAgent) q : message_queue (set_queue a q) = q.
Proof. reflexivity. Qed.

Lemma set_queue_id (a : BaseAgent) q : agent_id (set_queue a q) = agent_id a.
Proof. reflexivity. Qed.

(** Normalises accesses to an agent rebuilt by [set_queue]. *)
Ltac agent_simpl :=
  repeat (rewrite set_queue_twice in * || rewrite set_queue_queue in * ||
          rewrite set_queue_id in *).

(** What a call of [receive_message] can do: append the message, or
    raise and leave the agent as it was. *)
Lemma receive_message_cases (a : BaseAgent) (m : Message) :
  (receiver_id m = agent_id a /\ queue_full a = false /\
   receive_message a m = (set_queue a (message_queue a ++ [m])%list, Ok tt)) \/
  (exists e, receive_message a m = (a, Err e)).
Proof.
  unfold receive_message.
  destruct (String.eqb (receiver_id m) (agent_id a)) eqn:Eid; simpl.
  - destruct (queue_full a) eqn:Ef.
    + right. eauto.
    + left. apply String.eqb_eq in Eid. auto.
  - right. eauto.
Qed.

Lemma deliver_spec (a : BaseAgent) (ms : list Message) :
  forall a' evs, deliver a ms = (a', evs) ->
  a' = set_queue a (message_queue a ++ enqueued evs)%list /\
  dispatched evs = [] /\
  Forall (fun x => receiver_id x = agent_id a) (enqueued evs).
Proof.
  revert a. induction ms as [|m ms IH]; intros a a' evs Hd; simpl in Hd.
  - inversion Hd; subst. simpl. rewrite app_nil_r, set_queue_same. auto.
  - destruct (receive_message a m) as [a1 r] eqn:Er.
    destruct (deliver a1 ms) as [a2 evs2] eqn:Ed.
    inversion Hd; subst a' evs; clear Hd.
    destruct (IH _ _ _ Ed) as (-> & Hdis & Hall).
    destruct (receive_message_cases a m) as [(Hid & _ & Hr) | (e & Hr)];
      rewrite Hr in Er; inversion Er; subst a1 r; clear Er.
    + unfold enqueued, dispatched in *. simpl.
      agent_simpl.
      rewrite <- app_assoc. repeat split; auto.
    + simpl. repeat split; auto.
Qed.

(** The drain loop only moves the queue: the agent keeps its other fields,
    what it dispatched followed by what is left is what was there followed
    by what was admitted meanwhile, and everything admitted was addressed
    to it. *)
Lemma process_messages_trace {R : Type}
    (h : BaseAgent -> Message -> list Message * result R) (fuel : nat) :
  forall a a' tr o, process_messages h fuel a = (a', tr, o) ->
  a' = set_queue a (message_queue a') /\
  (dispatched tr ++ message_queue a' = message_queue a ++ enqueued tr)%list /\
  Forall (fun x => receiver_id x = agent_id a) (enqueued tr).
Proof.
  induction fuel as [|fuel IH]; intros a a' tr o Hp; simpl in Hp.
  - inversion Hp; subst. rewrite set_queue_same. simpl. rewrite app_nil_r. auto.
  - destruct (message_queue a) as [|m rest] eqn:Eq.
    + inversion Hp; subst. rewrite set_queue_same. simpl. rewrite Eq. auto.
    + destruct (h (set_queue a rest) m) as [arr r] eqn:Eh.
      destruct (deliver (set_queue a rest) arr) as [a1 evs] eqn:Ed.
      destruct (deliver_spec _ _ _ _ Ed) as (Ha1 & Hdis & Hall).
      agent_simpl.
      destruct r as [v|e].
      * destruct (process_messages h fuel a1) as [[a2 tr2] o2] eqn:Ep.
        inversion Hp; subst a' tr o; clear Hp.
        destruct (IH _ _ _ _ Ep) as (Ha2 & Htr & Hall2).
        subst a1. agent_simpl.
        unfold dispatched, enqueued in *. simpl. rewrite !flat_map_app.
        rewrite Hdis. simpl. rewrite Htr, <- !app_assoc.
        repeat split; auto.
        apply Forall_app; auto.
      * inversion Hp; subst a' tr o; clear Hp.
        subst a1. agent_simpl.
        unfold dispatched, enqueued in *. simpl.
        rewrite Hdis. repeat split; auto.
Qed.

Lemma receive_all_fits (ms : list Message) :
  forall a, Forall (fun x => receiver_id x = agent_id a) ms ->
  (Z.of_nat (length (message_queue a) + length ms) <= max_queue_size a)%Z ->
  receive_all a ms = (set_queue a (message_queue a ++ ms)%list, map (fun _ => Ok tt) ms).
Proof.
  induction ms as [|m ms IH]; intros a Hall Hsz; simpl.
  - rewrite app_nil_r, set_queue_same. reflexivity.
  - inversion Hall as [|? ? Hm Hms]; subst.
    assert (Hnf : queue_full a = false).
    { unfold queue_full. simpl in Hsz.
      destruct (0 <? max_queue_size a)%Z; simpl; [|reflexivity].
      apply Z.leb_gt. lia. }
    unfold receive_message at 1.
    rewrite Hm, String.eqb_refl, Hnf. simpl.
    rewrite IH; agent_simpl.
    + rewrite <- app_assoc. reflexivity.
    + exact Hms.
    + rewrite length_app. simpl in *. lia.
Qed.

Lemma all_ok_map_ok {A} (l : list A) : all_ok (map (fun _ => Ok tt) l) = true.
Proof. induction l; simpl; auto. Qed.

(** * The claims *)

(** ** C1
    An agent whose mailbox has capacity [C > 0] accepts [C] correctly
    addressed messages in a row; the next correctly addressed message is
    refused with [QueueFullError], the call leaves the agent as it was, and
    the mailbox holds exactly [C] messages. *)
Theorem receive_full_after_capacity (id mdl url : string) (C : Z)
    (ms : list Message) (m : Message) :
  (0 < C)%Z -> Z.of_nat (length ms) = C ->
  Forall (fun x => receiver_id x = id) ms -> receiver_id m = id ->
  let a1 := fst (receive_all (mkAgent id mdl C [] url) ms) in
  (all_ok (snd (receive_all (mkAgent id mdl C [] url) ms)) = true /\
   receive_message a1 m =
     (a1, Err (QueueFullError ("Message queue full for agent " ++ id))) /\
   Z.of_nat (length (message_queue a1)) = C).
Proof.
  intros HC Hlen Hall Hm a1.
  assert (Hr : receive_all (mkAgent id mdl C [] url) ms =
               (mkAgent id mdl C ms url, map (fun _ => Ok tt) ms)).
  { rewrite receive_all_fits; simpl; auto. lia. }
  subst a1. rewrite Hr. simpl. split; [apply all_ok_map_ok|].
  split; [|exact Hlen].
  unfold receive_message, queue_full. simpl.
  rewrite Hm, String.eqb_refl. simpl.
  replace (0 <? C)%Z with true by (symmetry; apply Z.ltb_lt; lia).
  replace (C <=? Z.of_nat (length ms))%Z with true by (symmetry; apply Z.leb_le; lia).
  reflexivity.
Qed.

Lemma Forall_app_r {A} (P : A -> Prop) (l1 l2 : list A) :
  Forall P (l1 ++ l2) -> Forall P l2.
Proof. intros H. apply Forall_app in H. tauto. Qed.

(** Every message in the mailbox of a reachable agent is addressed to it. *)
Lemma reachable_addressed (a : BaseAgent) :
  reachable a -> Forall (fun x => receiver_id x = agent_id a) (message_queue a).
Proof.
  induction 1 as [id mdl size url | a m Ha IH | R h fuel a Ha IH].
  - constructor.
  - destruct (receive_message_cases a m) as [(Hid & _ & Hr) | (e & Hr)];
      rewrite Hr; simpl; [|exact IH].
    apply Forall_app. split; [exact IH|]. constructor; [exact Hid | constructor].
  - destruct (process_messages h fuel a) as [[a' tr] o] eqn:Ep. simpl.
    destruct (process_messages_trace h fuel a a' tr o Ep) as (Ha' & Htr & Henq).
    assert (Hid : agent_id a' = agent_id a) by (rewrite Ha'; reflexivity).
    rewrite Hid. apply (Forall_app_r _ (dispatched tr)). rewrite Htr.
    apply Forall_app. auto.
Qed.

(** ** C2
    [receive_message] refuses a message addressed to another agent with
    [CommunicationError] and leaves the agent unchanged; it admits a
    message only when the message is addressed to the agent; so every
    message in the mailbox of an agent is addressed to it. *)
Theorem receive_admits_only_addressed (a : BaseAgent) (m : Message) :
  reachable a ->
  (receiver_id m <> agent_id a ->
   receive_message a m =
     (a, Err (CommunicationError ("Message intended for " ++ receiver_id m ++
                                  ", not " ++ agent_id a)))) /\
  (forall a', receive_message a m = (a', Ok tt) ->
   receiver_id m = agent_id a /\ message_queue a' = (message_queue a ++ [m])%list) /\
  Forall (fun x => receiver_id x = agent_id a) (message_queue a).
Proof.
  intros Hr. split; [|split].
  - intros Hne. unfold receive_message.
    destruct (String.eqb (receiver_id m) (agent_id a)) eqn:E.
    + apply String.eqb_eq in E. contradiction.
    + reflexivity.
  - intros a' Ha'.
    destruct (receive_message_cases a m) as [(Hid & _ & Hrm) | (e & Hrm)];
      rewrite Hrm in Ha'; inversion Ha'; subst; auto.
  - apply reachable_addressed. exact Hr.
Qed.

Lemma receive_all_ok (ms : list Message) :
  forall a, all_ok (snd (receive_all a ms)) = true ->
  fst (receive_all a ms) = set_queue a (message_queue a ++ ms)%list.
Proof.
  induction ms as [|m ms IH]; intros a Hok; simpl in *.
  - rewrite app_nil_r, set_queue_same. reflexivity.
  - destruct (receive_message_cases a m) as [(_ & _ & Hr) | (e & Hr)];
      rewrite Hr in *; destruct (receive_all _ ms) as [a2 rs] eqn:Ea;
      simpl in *; [|discriminate].
    specialize (IH _ ltac:(rewrite Ea; exact Hok)).
    rewrite Ea in IH. simpl in IH. rewrite IH. agent_simpl.
    rewrite <- app_assoc. reflexivity.
Qed.

(** ** C3
    Messages received one after the other are dispatched by
    [process_messages] in that order: the messages dispatched, followed by
    those left in the mailbox, are the messages that were there, then the
    ones received, then the ones admitted while handlers ran, in admission
    order.  Each handler runs to its end (its admissions are recorded
    after its dispatch) before the next message is taken. *)
Theorem process_messages_fifo {R : Type}
    (h : BaseAgent -> Message -> list Message * result R) (fuel : nat)
    (a : BaseAgent) (ms : list Message) (a2 : BaseAgent) (tr : list event) (o : outcome) :
  all_ok (snd (receive_all a ms)) = true ->
  process_messages h fuel (fst (receive_all a ms)) = (a2, tr, o) ->
  (dispatched tr ++ message_queue a2 = message_queue a ++ ms ++ enqueued tr)%list.
Proof.
  intros Hok Hp. rewrite (receive_all_ok ms a Hok) in Hp.
  destruct (process_messages_trace h fuel _ _ _ _ Hp) as (_ & Htr & _).
  rewrite Htr. agent_simpl. rewrite app_assoc. reflexivity.
Qed.

(** Running [process_messages] from a state its loop reaches. *)
Lemma loop_reaches_process {R : Type}
    (h : BaseAgent -> Message -> list Message * result R)
    (fuel : nat) (a : BaseAgent) (tr0 : list event) (fuel' : nat) (a' : BaseAgent) :
  loop_reaches h fuel a tr0 fuel' a' ->
  process_messages h fuel a =
  (let '(a2, tr, o) := process_messages h fuel' a' in (a2, (tr0 ++ tr)%list, o)).
Proof.
  induction 1 as [fuel a | fuel a m rest arr v a1 evs tr fuel' a' Hq Hh Hd Hr IH].
  - destruct (process_messages h fuel a) as [[a2 tr] o]. reflexivity.
  - simpl. rewrite Hq, Hh, Hd, IH.
    destruct (process_messages h fuel' a') as [[a2 tr2] o2].
    rewrite <- app_assoc. reflexivity.
Qed.

(** One iteration whose handler raises. *)
Lemma process_step_raise {R : Type}
    (h : BaseAgent -> Message -> list Message * result R) (fuel : nat)
    (a : BaseAgent) (m : Message) (rest arr : list Message) (e : exn)
    (a1 : BaseAgent) (evs : list event) :
  message_queue a = m :: rest -> h (set_queue a rest) m = (arr, Err e) ->
  deliver (set_queue a rest) arr = (a1, evs) ->
  process_messages h (S fuel) a = (a1, Dispatched m :: evs, Raised e).
Proof. intros Hq Hh Hd. simpl. rewrite Hq, Hh, Hd. reflexivity. Qed.

(** ** C10
    When a handler raises while [process_messages] drains the mailbox (at
    any iteration the loop reaches, every earlier handler having returned
    normally), the call raises that exception: the message being handled
    was taken out of the mailbox and is not put back, the trace ends with
    its dispatch followed only by what was admitted while the handler ran
    (no further dispatch), and the mailbox holds the messages that were
    behind it, followed by those admitted meanwhile. *)
Theorem process_messages_raise {R : Type}
    (h : BaseAgent -> Message -> list Message * result R) (fuel : nat)
    (a : BaseAgent) (tr0 : list event) (f : nat) (a' : BaseAgent)
    (m : Message) (rest arr : list Message) (e : exn) (a1 : BaseAgent) (evs : list event) :
  loop_reaches h fuel a tr0 (S f) a' ->
  message_queue a' = m :: rest ->
  h (set_queue a' rest) m = (arr, Err e) ->
  deliver (set_queue a' rest) arr = (a1, evs) ->
  process_messages h fuel a = (a1, (tr0 ++ Dispatched m :: evs)%list, Raised e) /\
  message_queue a1 = (rest ++ enqueued evs)%list /\
  dispatched evs = [] /\
  agent_id a1 = agent_id a'.
Proof.
  intros Hr Hq Hh Hd.
  destruct (deliver_spec _ _ _ _ Hd) as (Ha1 & Hdis & _).
  split.
  - rewrite (loop_reaches_process h fuel a tr0 (S f) a' Hr).
    rewrite (process_step_raise h f a' m rest arr e a1 evs Hq Hh Hd). reflexivity.
  - rewrite Ha1. agent_simpl. auto.
Qed.

(** ** C9 (as stated)
    A [BaseAgent] holding two messages: its handler raises
    [NotImplementedError] on the first, and the drain stops there; the
    second message is never dispatched. *)
Lemma drain_stops_at_raising_handler :
  process_messages (role_handler JsonDecode.json_decode backend_hello BaseRole example_now)
    3 agent2_two =
  (set_queue agent2_two [msg_second], [Dispatched msg_first], Raised NotImplementedError) /\
  dispatched [Dispatched msg_first] <> message_queue agent2_two.
Proof. split; [reflexivity | discriminate]. Qed.

Lemma runs_ok_set_queue {R : Type}
    (h : BaseAgent -> Message -> list Message * result R)
    (a : BaseAgent) (qu pre rest : list Message) :
  runs_ok h (set_queue a qu) pre rest = runs_ok h a pre rest.
Proof. induction pre as [|x pre IH]; simpl; [reflexivity|]. rewrite set_queue_twice, IH. reflexivity. Qed.

(** With nothing arriving, the loop goes through a prefix of handlers
    that return normally. *)
Lemma drain_prefix {R : Type}
    (h : BaseAgent -> Message -> list Message * result R) :
  (forall a0 m, fst (h a0 m) = []) ->
  forall pre a rest fuel,
  message_queue a = (pre ++ rest)%list -> runs_ok h a pre rest -> length pre <= fuel ->
  process_messages h fuel a =
  (let '(a2, tr, o) := process_messages h (fuel - length pre) (set_queue a rest) in
   (a2, (map Dispatched pre ++ tr)%list, o)).
Proof.
  intros Hquiet. induction pre as [|x pre IH]; intros a rest fuel Hq Hr Hlen.
  - simpl in Hq. rewrite <- Hq, set_queue_same, Nat.sub_0_r.
    destruct (process_messages h fuel a) as [[a2 tr] o]. reflexivity.
  - destruct fuel as [|fuel]; [simpl in Hlen; lia|].
    simpl in Hq, Hr, Hlen. destruct Hr as [[v Hv] Hr].
    cbn [process_messages]. rewrite Hq.
    destruct (h (set_queue a (pre ++ rest)%list) x) as [arr r] eqn:Eh.
    assert (arr = []) as -> by (rewrite <- (Hquiet (set_queue a (pre ++ rest)%list) x), Eh; reflexivity).
    simpl in Hv. subst r. cbn [deliver].
    rewrite (IH (set_queue a (pre ++ rest)%list) rest fuel).
    + agent_simpl. simpl.
      destruct (process_messages h (fuel - length pre) (set_queue a rest)) as [[a2 tr] o].
      reflexivity.
    + reflexivity.
    + rewrite runs_ok_set_queue. exact Hr.
    + lia.
Qed.

(** Either every handler returns normally, or there is a first one that
    raises. *)
Lemma runs_first_error {R : Type}
    (h : BaseAgent -> Message -> list Message * result R) (a : BaseAgent)
    (rest l : list Message) :
  runs_ok h a l rest \/
  exists pre m post e,
    l = (pre ++ m :: post)%list /\ runs_ok h a pre (m :: post ++ rest)%list /\
    snd (h (set_queue a (post ++ rest)%list) m) = Err e.
Proof.
  induction l as [|x l IH]; [left; exact I|].
  destruct (snd (h (set_queue a (l ++ rest)%list) x)) as [v|e] eqn:E.
  - destruct IH as [Hok | (pre & m & post & e & -> & Hr & He)].
    + left. split; eauto.
    + right. exists (x :: pre), m, post, e.
      split; [reflexivity|]. split; [|exact He].
      split; [|exact Hr]. exists v. rewrite <- app_assoc in E. exact E.
  - right. exists [], x, l, e. split; [reflexivity|]. split; [exact I | exact E].
Qed.

(** ** C9 (amended)
    When nothing reaches the mailbox while it is drained and more
    iterations are available than messages present, [process_messages]
    terminates with one of two results, fixed by what the handlers do: on
    an empty mailbox it returns at once without dispatching; if the
    handler returns normally on every message present, it dispatches all
    of them in order and leaves the mailbox empty; otherwise, for the first
    message whose handler raises, it dispatches the messages up to that one
    in order, raises that handler's exception and leaves the messages after
    it in the mailbox.  One of the two cases always applies. *)
Theorem process_messages_drain_once {R : Type}
    (h : BaseAgent -> Message -> list Message * result R) (fuel : nat) (a : BaseAgent) :
  (forall a0 m, fst (h a0 m) = []) ->
  length (message_queue a) < fuel ->
  (message_queue a = [] -> process_messages h fuel a = (a, [], Done)) /\
  (runs_ok h a (message_queue a) [] ->
   process_messages h fuel a =
     (set_queue a [], map Dispatched (message_queue a), Done)) /\
  (forall pre m post e,
   message_queue a = (pre ++ m :: post)%list -> runs_ok h a pre (m :: post) ->
   snd (h (set_queue a post) m) = Err e ->
   process_messages h fuel a =
     (set_queue a post, map Dispatched (pre ++ [m]), Raised e)) /\
  (runs_ok h a (message_queue a) [] \/
   exists pre m post e,
     message_queue a = (pre ++ m :: post)%list /\ runs_ok h a pre (m :: post) /\
     snd (h (set_queue a post) m) = Err e).
Proof.
  intros Hquiet Hlen. split; [|split; [|split]].
  - intros Hq. destruct fuel as [|fuel]; [lia|]. simpl. rewrite Hq. reflexivity.
  - intros Hr.
    rewrite (drain_prefix h Hquiet (message_queue a) a [] fuel); [| rewrite app_nil_r; reflexivity | exact Hr | lia].
    destruct (fuel - length (message_queue a)) as [|k] eqn:Ek; [lia|].
    simpl. rewrite app_nil_r. reflexivity.
  - intros pre m post e Hq Hr He.
    assert (Hl : length (message_queue a) = length pre + S (length post))
      by (rewrite Hq, length_app; reflexivity).
    rewrite (drain_prefix h Hquiet pre a (m :: post) fuel Hq Hr ltac:(lia)).
    destruct (fuel - length pre) as [|k] eqn:Ek; [lia|].
    cbn [process_messages]. agent_simpl.
    destruct (h (set_queue a post) m) as [arr r] eqn:Eh.
    assert (arr = []) as -> by (rewrite <- (Hquiet (set_queue a post) m), Eh; reflexivity).
    simpl in He. subst r. simpl. rewrite map_app. reflexivity.
  - destruct (runs_first_error h a [] (message_queue a))
      as [Hok | (pre & m & post & e & Hq & Hr & He)]; [left; exact Hok|].
    right. exists pre, m, post, e. rewrite app_nil_r in Hr, He. auto.
Qed.

Lemma length_append (s1 s2 : string) :
  String.length (s1 ++ s2) = String.length s1 + String.length s2.
Proof. induction s1; simpl; auto. Qed.

Lemma pad_length (w : nat) : forall n, String.length (pad w n) = w.
Proof.
  induction w as [|w IH]; intros n; simpl; [reflexivity|].
  rewrite length_append, IH. simpl. lia.
Qed.

Lemma isoformat_nonempty (d : datetime) : isoformat d <> "".
Proof.
  intros H. apply (f_equal String.length) in H.
  unfold isoformat in H. rewrite length_append, pad_length in H. simpl in H. lia.
Qed.

(** ** C5 (as stated)
    [send_message] with an empty receiver identifier does not raise
    [CommunicationError]: it returns a message addressed to [""]. *)
Lemma send_empty_receiver_accepted :
  send_message (BaseAgent_new "agent1" None None) "" "Hello" None example_now =
  Ok {| sender_id := "agent1"; receiver_id := ""; content := "Hello";
        message_type := "general"; timestamp := isoformat example_now |}.
Proof. reflexivity. Qed.

(** ** C5 (amended)
    Message construction checks nothing about its identifiers, so
    [send_message] never fails on string arguments: it returns the message
    from the agent to the given receiver (empty or not), with the given
    type or ["general"]. *)
Theorem send_message_never_fails (a : BaseAgent) (to_agent_id body : string)
    (mtype : option string) (now : datetime) :
  send_message a to_agent_id body mtype now =
  Ok {| sender_id := agent_id a; receiver_id := to_agent_id; content := body;
        message_type := match mtype with Some t => t | None => "general" end;
        timestamp := isoformat now |}.
Proof. destruct mtype; reflexivity. Qed.

(** ** C8
    From an agent with identifier ["agent1"],
    [send_message("agent2", "Hello", "general")] succeeds with a message
    from ["agent1"] to ["agent2"], content ["Hello"], type ["general"] and a
    non-empty timestamp; leaving the type out gives the same message. *)
Theorem send_message_agent1_hello (mdl url : string) (size : Z)
    (qu : list Message) (now : datetime) :
  let a := mkAgent "agent1" mdl size qu url in
  (send_message a "agent2" "Hello" (Some "general") now =
     Ok {| sender_id := "agent1"; receiver_id := "agent2"; content := "Hello";
           message_type := "general"; timestamp := isoformat now |} /\
   send_message a "agent2" "Hello" None now =
     send_message a "agent2" "Hello" (Some "general") now /\
   isoformat now <> "").
Proof.
  intros a. split; [reflexivity|]. split; [reflexivity|].
  apply isoformat_nonempty.
Qed.

(** [process_messages] keeps nothing of a handler's return value: it runs
    the same with the value replaced by [None]. *)
Lemma process_messages_drops_return {R : Type}
    (h : BaseAgent -> Message -> list Message * result R) (fuel : nat) :
  forall a,
  process_messages h fuel a =
  process_messages (fun a0 m => (fst (h a0 m),
                                 bind (snd (h a0 m)) (fun _ => Ok (@None Message))))
                   fuel a.
Proof.
  induction fuel as [|fuel IH]; intros a; simpl; [reflexivity|].
  destruct (message_queue a) as [|m rest]; [reflexivity|].
  destruct (h (set_queue a rest) m) as [arr r]. simpl.
  destruct (deliver (set_queue a rest) arr) as [a1 evs].
  destruct r as [v|e]; simpl; [rewrite IH|]; reflexivity.
Qed.

(** ** C4 (code bug)
    On the round trip the answer agent's handler builds the reply to the
    questioner, but [process_messages] awaits the handler and drops its
    return value: the drain returns nothing, the mailbox is empty, and the
    run is the same as with a handler that returns [None] (the question
    agent's). *)
Theorem answer_reply_dropped :
  handle_message JsonDecode.json_decode backend_hello AnswerRole example_now
    (set_queue answerer_with_question []) question_msg =
  Ok (Some {| sender_id := "answerer"; receiver_id := "questioner";
              content := "Hello"; message_type := "answer";
              timestamp := isoformat example_now |}) /\
  process_messages
    (role_handler JsonDecode.json_decode backend_hello AnswerRole example_now)
    2 answerer_with_question =
  (set_queue answerer_with_question [], [Dispatched question_msg], Done) /\
  process_messages
    (role_handler JsonDecode.json_decode backend_hello AnswerRole example_now)
    2 answerer_with_question =
  process_messages
    (role_handler JsonDecode.json_decode backend_hello QuestionRole example_now)
    2 answerer_with_question.
Proof.
  split; [vm_compute; reflexivity|].
  split; [vm_compute; reflexivity|].
  rewrite process_messages_drops_return. symmetry.
  rewrite process_messages_drops_return. vm_compute. reflexivity.
Qed.

(** * Lemmas on the string helpers *)

Lemma append_empty_r (s : string) : s ++ "" = s.
Proof. induction s; simpl; congruence. Qed.

Lemma append_assoc_str (s1 s2 s3 : string) : s1 ++ (s2 ++ s3) = (s1 ++ s2) ++ s3.
Proof. induction s1; simpl; congruence. Qed.

Lemma split_nl_not_nil (s : string) : split_nl s <> [].
Proof.
  destruct s as [|c s]; simpl; [discriminate|].
  destruct (Ascii.eqb c newline); [discriminate|].
  destruct (split_nl s); discriminate.
Qed.

Lemma split_nl_app (l y : string) :
  has_newline l = false ->
  split_nl (l ++ y) = (l ++ hd "" (split_nl y)) :: tl (split_nl y).
Proof.
  induction l as [|c l IH]; intros Hn; simpl.
  - destruct (split_nl y) eqn:E; [exfalso; exact (split_nl_not_nil y E)|]. reflexivity.
  - unfold has_newline in Hn. cbn [list_ascii_of_string existsb] in Hn.
    apply orb_false_iff in Hn as [Hc Hn].
    rewrite Ascii.eqb_sym in Hc. cbn [split_nl append].
    rewrite Hc, IH by exact Hn. reflexivity.
Qed.

Lemma split_nl_concat (ls : list string) :
  Forall (fun l => has_newline l = false) ls ->
  split_nl (String.concat nl ls) = match ls with [] => [""] | _ => ls end.
Proof.
  induction ls as [|l ls IH]; intros Hall; [reflexivity|].
  inversion Hall as [|? ? Hl Hls]; subst.
  destruct ls as [|l' ls'].
  - simpl. rewrite <- (append_empty_r l) at 1. rewrite split_nl_app by exact Hl.
    simpl. rewrite append_empty_r. reflexivity.
  - change (String.concat nl (l :: l' :: ls')) with (l ++ nl ++ String.concat nl (l' :: ls')).
    rewrite split_nl_app by exact Hl.
    replace (nl ++ String.concat nl (l' :: ls'))
      with (String newline (String.concat nl (l' :: ls'))) by reflexivity.
    cbn [split_nl]. rewrite Ascii.eqb_refl. cbn [hd tl].
    rewrite IH by exact Hls. rewrite append_empty_r. reflexivity.
Qed.

Lemma lstrip_length (s : string) : String.length (lstrip s) <= String.length s.
Proof. induction s as [|c s IH]; simpl; [lia|]. destruct (is_space c); simpl; lia. Qed.

Lemma rstrip_length (s : string) : String.length (rstrip s) <= String.length s.
Proof.
  induction s as [|c s IH]; simpl; [lia|].
  destruct (String.eqb (rstrip s) "" && is_space c); simpl; lia.
Qed.

Lemma lstrip_same_length (s : string) :
  String.length (lstrip s) = String.length s -> lstrip s = s.
Proof.
  destruct s as [|c s]; simpl; [auto|].
  destruct (is_space c); [|auto].
  pose proof (lstrip_length s). intros; lia.
Qed.

Lemma strip_fixed (l : string) :
  strip l = l -> lstrip l = l /\ rstrip l = l.
Proof.
  unfold strip. intros H.
  assert (Hl : lstrip l = l).
  { apply lstrip_same_length.
    pose proof (rstrip_length (lstrip l)). pose proof (lstrip_length l).
    rewrite H in *. lia. }
  rewrite Hl in H. auto.
Qed.

Lemma lstrip_head (c : ascii) (r : string) :
  lstrip (String c r) = String c r -> is_space c = false.
Proof.
  simpl. destruct (is_space c) eqn:E; [|auto].
  intros H. pose proof (lstrip_length r). rewrite H in *. simpl in *. lia.
Qed.

Lemma lstrip_app_space (w x : string) :
  all_space w = true -> lstrip (w ++ x) = lstrip x.
Proof.
  induction w as [|c w IH]; simpl; [auto|].
  unfold all_space. simpl. intros H. apply andb_true_iff in H as [Hc Hw].
  rewrite Hc. apply IH. exact Hw.
Qed.

Lemma rstrip_space (w : string) : all_space w = true -> rstrip w = "".
Proof.
  induction w as [|c w IH]; simpl; [auto|].
  unfold all_space. simpl. intros H. apply andb_true_iff in H as [Hc Hw].
  rewrite IH by exact Hw. rewrite Hc. reflexivity.
Qed.

Lemma lstrip_space (w : string) : all_space w = true -> lstrip w = "".
Proof. intros H. rewrite <- (append_empty_r w), lstrip_app_space; auto. Qed.

Lemma rstrip_app (x y : string) :
  rstrip (x ++ y) = if String.eqb (rstrip y) "" then rstrip x else x ++ rstrip y.
Proof.
  induction x as [|c x IH]; simpl.
  - destruct (String.eqb (rstrip y) "") eqn:E; [apply String.eqb_eq in E|]; auto.
  - rewrite IH. destruct (String.eqb (rstrip y) "") eqn:E; [reflexivity|].
    destruct (String.eqb (x ++ rstrip y) "") eqn:E2; [|reflexivity].
    apply String.eqb_eq in E2. destruct x; simpl in E2;
      [rewrite E2 in E; discriminate | discriminate].
Qed.

Lemma concat_first (l : string) (ls : list string) :
  exists t, String.concat nl (l :: ls) = l ++ t.
Proof.
  destruct ls; simpl.
  - exists "". symmetry. apply append_empty_r.
  - eexists. reflexivity.
Qed.

Lemma concat_last (l : string) (ls : list string) :
  exists t, String.concat nl (ls ++ [l]) = t ++ l.
Proof.
  induction ls as [|x ls IH]; simpl.
  - exists "". reflexivity.
  - destruct IH as [t Ht]. destruct (ls ++ [l])%list eqn:E.
    + destruct ls; discriminate.
    + rewrite Ht. exists (x ++ nl ++ t).
      rewrite <- !append_assoc_str. reflexivity.
Qed.

(** Surrounding whitespace is dropped, lines already trimmed are kept. *)
Lemma strip_lines (ws1 ws2 : string) (ls : list string) :
  all_space ws1 = true -> all_space ws2 = true ->
  Forall (fun l => l <> "" /\ strip l = l) ls ->
  strip (ws1 ++ String.concat nl ls ++ ws2) = String.concat nl ls.
Proof.
  intros H1 H2 Hall. unfold strip. rewrite lstrip_app_space by exact H1.
  destruct ls as [|l ls].
  - simpl. rewrite lstrip_space by exact H2. reflexivity.
  - inversion Hall as [|? ? [Hne Hst] _]; subst.
    destruct (strip_fixed l Hst) as [Hls _].
    destruct (concat_first l ls) as [t Ht].
    assert (Hlstrip : lstrip (String.concat nl (l :: ls) ++ ws2) =
                      String.concat nl (l :: ls) ++ ws2).
    { rewrite Ht. destruct l as [|c r]; [contradiction|].
      pose proof (lstrip_head c r Hls) as Hc. simpl. rewrite Hc. reflexivity. }
    rewrite Hlstrip, rstrip_app, rstrip_space by exact H2.
    rewrite String.eqb_refl. cbv beta iota.
    destruct (@exists_last _ (l :: ls) ltac:(discriminate)) as (init & lst & Hsplit).
    rewrite Hsplit in *.
    destruct (concat_last lst init) as [t' Ht'].
    assert (Hlst : lst <> "" /\ strip lst = lst).
    { rewrite Forall_forall in Hall. apply Hall, in_or_app. right. left. reflexivity. }
    destruct Hlst as [Hne' Hst']. destruct (strip_fixed lst Hst') as [_ Hr].
    rewrite Ht', rstrip_app, Hr.
    destruct (String.eqb lst "") eqn:E; [apply String.eqb_eq in E; contradiction|].
    reflexivity.
Qed.

(** * Lemmas on the response assembly *)

Lemma find_existsb {A} (f : A -> bool) (l : list A) :
  (existsb f l = false -> find f l = None) /\
  (existsb f l = true -> exists x, find f l = Some x).
Proof.
  induction l as [|x l IH]; simpl; [split; [auto | discriminate]|].
  destruct (f x); simpl; [split; [discriminate | eauto] | exact IH].
Qed.

Lemma existsb_rev {A} (f : A -> bool) (l : list A) : existsb f (rev l) = existsb f l.
Proof.
  induction l as [|x l IH]; simpl; [reflexivity|].
  rewrite existsb_app, IH. simpl. rewrite orb_false_r, orb_comm. reflexivity.
Qed.

Lemma concat_empty_cons (x : string) (xs : list string) :
  String.concat "" (x :: xs) = x ++ String.concat "" xs.
Proof. destruct xs; simpl; [symmetry; apply append_empty_r | reflexivity]. Qed.

(** The loop over lines that all decode to records adds up their fragments. *)
Lemma assemble_records (json_loads : string -> result json)
    (ls : list string) (recs : list (list (string * json))) :
  Forall2 (fun l kvs => json_loads l = Ok (JObj kvs)) ls recs ->
  Forall (fun l => l <> "") ls ->
  forallb record_ok recs = true ->
  forall acc, assemble json_loads acc ls =
              Ok (acc ++ String.concat "" (map spec_fragment recs)).
Proof.
  induction 1 as [|l kvs ls recs Hl Hrest IH]; intros Hne Hok acc.
  - simpl. rewrite append_empty_r. reflexivity.
  - cbn [assemble map]. inversion Hne as [|? ? Hl0 Hne']; subst.
    simpl in Hok. apply andb_true_iff in Hok as [Hk Hok].
    destruct (String.eqb l "") eqn:E; [apply String.eqb_eq in E; contradiction|].
    rewrite Hl. cbn [bind py_contains].
    rewrite concat_empty_cons.
    unfold record_ok, spec_fragment, response_field in *.
    pose proof (find_existsb (fun kv : string * json => String.eqb (fst kv) "response")
                             (rev kvs)) as [Hnone Hsome].
    rewrite existsb_rev in Hnone, Hsome.
    destruct (existsb (fun kv => String.eqb (fst kv) "response") kvs) eqn:Ex.
    + destruct (Hsome eq_refl) as [kv Hkv].
      cbn [py_getitem bind]. rewrite Hkv in *.
      destruct (snd kv) as [| | |s| |]; try discriminate.
      cbn [py_iadd_str bind]. rewrite IH by auto.
      rewrite append_assoc_str. reflexivity.
    + rewrite (Hnone eq_refl) in *. rewrite IH by auto. reflexivity.
Qed.

(** A line that does not decode stops the loop with an exception outside
    the agent taxonomy. *)
Lemma assemble_malformed (json_loads : string -> result json) (line : string)
    (lines : list string) :
  (forall s e, json_loads s = Err e -> is_agent_error e = false) ->
  In line lines -> line <> "" -> (exists e, json_loads line = Err e) ->
  forall acc, exists e, assemble json_loads acc lines = Err e /\ is_agent_error e = false.
Proof.
  intros Hjs. induction lines as [|l rest IH]; intros Hin Hne [e0 He0] acc;
    [destruct Hin|].
  assert (Hrest : l <> line -> exists e, assemble json_loads acc rest = Err e /\
                                         is_agent_error e = false).
  { intros Hdiff. destruct Hin as [->|Hin]; [contradiction|]. eauto. }
  simpl.
  destruct (String.eqb l "") eqn:El.
  - apply String.eqb_eq in El. subst l. apply Hrest. congruence.
  - destruct (json_loads l) as [data|e] eqn:Ej.
    2: { exists e. split; [reflexivity | eapply Hjs; eauto]. }
    assert (Hdiff : l <> line) by congruence.
    cbn [bind].
    destruct (py_contains "response" data) as [has|e] eqn:Ec.
    2: { exists e. split; [reflexivity|].
         destruct data; simpl in Ec; inversion Ec; reflexivity. }
    cbn [bind]. destruct has.
    + destruct (py_getitem data "response") as [v|e] eqn:Eg.
      2: { exists e. split; [reflexivity|].
           destruct data; simpl in Eg; try (inversion Eg; reflexivity).
           destruct (find _ _); inversion Eg; reflexivity. }
      cbn [bind]. destruct (py_iadd_str acc v) as [acc'|e] eqn:Ea.
      2: { exists e. split; [reflexivity|].
           destruct v; simpl in Ea; inversion Ea; reflexivity. }
      cbn [bind]. destruct Hin as [->|Hin]; [contradiction|].
      apply IH; eauto.
    + destruct Hin as [->|Hin]; [contradiction|]. apply IH; eauto.
Qed.

Lemma json_decode_errors (s : string) (e : exn) :
  JsonDecode.json_decode s = Err e -> e = JSONDecodeError.
Proof.
  unfold JsonDecode.json_decode.
  destruct (JsonDecode.parse_value _ _) as [[v r]|]; [|congruence].
  destruct (String.eqb _ _); congruence.
Qed.

(** ** C6 (code bug)
    A streamed reply with a line that does not decode makes the call fail
    (it is not skipped), but with the decoder's own exception (or another
    non-agent one): nothing maps it to [OllamaError], the class the source
    declares for failed interactions with the model. *)
Theorem malformed_line_untyped_failure (json_loads : string -> result json)
    (backend : string -> string -> string -> result string) (a : BaseAgent)
    (topic question text line : string) :
  (forall s e, json_loads s = Err e -> e = JSONDecodeError) ->
  In line (split_nl (strip text)) -> line <> "" ->
  json_loads line = Err JSONDecodeError ->
  (exists e, read_stream json_loads text = Err e /\ is_agent_error e = false) /\
  (backend (base_url a ++ "/api/generate") (model a)
     ("Generate a thought-provoking question about: " ++ topic) = Ok text ->
   exists e, generate_question json_loads backend a topic = Err e /\
             is_agent_error e = false) /\
  (backend (base_url a ++ "/api/generate") (model a)
     ("Please answer this question: " ++ question) = Ok text ->
   exists e, generate_answer json_loads backend a question = Err e /\
             is_agent_error e = false).
Proof.
  intros Hjs Hin Hne Hl.
  assert (Hjs' : forall s e, json_loads s = Err e -> is_agent_error e = false).
  { intros s e H. rewrite (Hjs s e H). reflexivity. }
  assert (Hrs : exists e, read_stream json_loads text = Err e /\ is_agent_error e = false).
  { destruct (assemble_malformed json_loads line _ Hjs' Hin Hne (ex_intro _ _ Hl) "")
      as (e & He & Hag).
    exists e. unfold read_stream. rewrite He. auto. }
  split; [exact Hrs|].
  split; intros Hb; [unfold generate_question | unfold generate_answer];
    rewrite Hb; exact Hrs.
Qed.

Lemma malformed_line_untyped_failure_witness :
  generate_answer JsonDecode.json_decode backend_garbled
    (BaseAgent_new "answerer" None None) "q" = Err JSONDecodeError /\
  exists e, generate_answer JsonDecode.json_decode backend_garbled
              (BaseAgent_new "answerer" None None) "q" = Err e /\
            is_agent_error e = false.
Proof.
  split; [vm_compute; reflexivity|].
  refine (proj2 (proj2 (malformed_line_untyped_failure JsonDecode.json_decode
            backend_garbled (BaseAgent_new "answerer" None None) "t" "q"
            ("not json" ++ nl) "not json" json_decode_errors _ _ _)) _).
  - vm_compute. left. reflexivity.
  - discriminate.
  - vm_compute. reflexivity.
  - reflexivity.
Defined.

(** ** C7
    For a reply made of newline-separated records (each line trimmed,
    non-empty, decoding to an object whose [response] field, when present,
    is text), possibly with whitespace around it, the client returns the
    in-order concatenation of the [response] fragments, skipping records
    without the field, trimmed.  This holds for [read_stream] and for both
    [generate_question] and [generate_answer]. *)
Theorem generation_concatenates_fragments (json_loads : string -> result json)
    (backend : string -> string -> string -> result string) (a : BaseAgent)
    (topic question ws1 ws2 : string) (ls : list string)
    (recs : list (list (string * json))) :
  all_space ws1 = true -> all_space ws2 = true ->
  Forall (fun l => l <> "" /\ strip l = l /\ has_newline l = false) ls ->
  Forall2 (fun l kvs => json_loads l = Ok (JObj kvs)) ls recs ->
  forallb record_ok recs = true ->
  let text := ws1 ++ String.concat nl ls ++ ws2 in
  (read_stream json_loads text = Ok (spec_stream_text recs) /\
   (backend (base_url a ++ "/api/generate") (model a)
      ("Generate a thought-provoking question about: " ++ topic) = Ok text ->
    generate_question json_loads backend a topic = Ok (spec_stream_text recs)) /\
   (backend (base_url a ++ "/api/generate") (model a)
      ("Please answer this question: " ++ question) = Ok text ->
    generate_answer json_loads backend a question = Ok (spec_stream_text recs))).
Proof.
  intros H1 H2 Hls Hrecs Hok text.
  assert (Hrs : read_stream json_loads text = Ok (spec_stream_text recs)).
  { assert (Htrim : Forall (fun l => l <> "" /\ strip l = l) ls)
      by (eapply Forall_impl; [|exact Hls]; simpl; tauto).
    assert (Hnl : Forall (fun l => has_newline l = false) ls)
      by (eapply Forall_impl; [|exact Hls]; simpl; tauto).
    assert (Hne : Forall (fun l => l <> "") ls)
      by (eapply Forall_impl; [|exact Hls]; simpl; tauto).
    unfold read_stream, text.
    rewrite (strip_lines ws1 ws2 ls H1 H2 Htrim), (split_nl_concat ls Hnl).
    destruct ls as [|l ls'].
    - inversion Hrecs; subst. reflexivity.
    - rewrite (assemble_records json_loads _ recs Hrecs Hne Hok).
      reflexivity. }
  split; [exact Hrs|].
  split; intros Hb; [unfold generate_question | unfold generate_answer];
    rewrite Hb; exact Hrs.
Qed.

Lemma generation_concatenates_fragments_witness :
  generate_answer JsonDecode.json_decode backend_hello
    (BaseAgent_new "answerer" None None) "q" = Ok "Hello".
Proof.
  refine (proj2 (proj2 (generation_concatenates_fragments JsonDecode.json_decode
            backend_hello (BaseAgent_new "answerer" None None) "t" "q" "" nl
            [line_hel; line_lo; line_done]
            [[("model", JStr "mistral"); ("response", JStr "Hel"); ("done", JBool false)];
             [("model", JStr "mistral"); ("response", JStr "lo"); ("done", JBool false)];
             [("model", JStr "mistral"); ("done", JBool true)]]
            eq_refl eq_refl _ _ eq_refl)) _).
  - repeat constructor; vm_compute; try reflexivity; discriminate.
  - repeat constructor; vm_compute; reflexivity.
  - vm_compute. reflexivity.
Defined.

(** * Witnesses: each theorem with hypotheses, applied to concrete inputs *)

(** [test_error_handling]: [msg1] fills the mailbox of size 1, [msg2] is refused. *)
Lemma receive_full_after_capacity_witness :
  all_ok (snd (receive_all test_agent_size1 [msg1])) = true /\
  receive_message (fst (receive_all test_agent_size1 [msg1])) msg2 =
    (fst (receive_all test_agent_size1 [msg1]),
     Err (QueueFullError ("Message queue full for agent " ++ "test_agent"))) /\
  Z.of_nat (length (message_queue (fst (receive_all test_agent_size1 [msg1])))) = 1%Z.
Proof.
  apply (receive_full_after_capacity "test_agent" "mistral" "http://localhost:11434"
           1 [msg1] msg2).
  - lia.
  - reflexivity.
  - repeat constructor.
  - reflexivity.
Defined.

Lemma receive_admits_only_addressed_witness :
  (receiver_id msg1 <> agent_id agent2_two ->
   receive_message agent2_two msg1 =
     (agent2_two, Err (CommunicationError ("Message intended for " ++ receiver_id msg1 ++
                                           ", not " ++ agent_id agent2_two)))) /\
  (forall a', receive_message agent2_two msg1 = (a', Ok tt) ->
   receiver_id msg1 = agent_id agent2_two /\
   message_queue a' = (message_queue agent2_two ++ [msg1])%list) /\
  Forall (fun x => receiver_id x = agent_id agent2_two) (message_queue agent2_two).
Proof.
  apply receive_admits_only_addressed.
  change agent2_two with
    (fst (receive_message (fst (receive_message
       (mkAgent "agent2" "mistral" 100 [] "http://localhost:11434") msg_first)) msg_second)).
  apply reach_receive. apply reach_receive. apply reach_new.
Defined.

Lemma process_messages_fifo_witness :
  (dispatched [Dispatched msg_first; Dispatched msg_second] ++ [] =
   [] ++ [msg_first; msg_second] ++ [])%list.
Proof.
  apply (process_messages_fifo
           (role_handler JsonDecode.json_decode backend_hello QuestionRole example_now)
           3 (BaseAgent_new "agent2" None None) [msg_first; msg_second]
           (set_queue (BaseAgent_new "agent2" None None) [])
           [Dispatched msg_first; Dispatched msg_second] Done).
  - vm_compute. reflexivity.
  - vm_compute. reflexivity.
Defined.

(** An answer agent holding a note and then a question, with the model
    server down: the note is handled, the question's handler raises. *)
Lemma process_messages_raise_witness :
  process_messages (role_handler JsonDecode.json_decode backend_down AnswerRole example_now)
    3 answerer_two =
  (set_queue answerer_two [], [Dispatched note_msg; Dispatched question_msg],
   Raised (HTTPXError "timed out")) /\
  message_queue (set_queue answerer_two []) = ([] ++ enqueued [])%list /\
  dispatched [] = [] /\
  agent_id (set_queue answerer_two []) = agent_id (set_queue answerer_two [question_msg]).
Proof.
  refine (process_messages_raise
            (role_handler JsonDecode.json_decode backend_down AnswerRole example_now)
            3 answerer_two [Dispatched note_msg] 1 (set_queue answerer_two [question_msg])
            question_msg [] [] (HTTPXError "timed out") (set_queue answerer_two []) []
            _ _ _ _).
  - change [Dispatched note_msg] with (Dispatched note_msg :: [] ++ [])%list.
    apply (reaches_step _ 2 answerer_two note_msg [question_msg] [] None
             (set_queue answerer_two [question_msg]) [] [] 2).
    + reflexivity.
    + vm_compute. reflexivity.
    + reflexivity.
    + apply reaches_here.
  - reflexivity.
  - vm_compute. reflexivity.
  - reflexivity.
Defined.

Lemma process_messages_drain_once_witness :
  (message_queue agent2_two = [] ->
   process_messages (role_handler JsonDecode.json_decode backend_hello BaseRole example_now)
     3 agent2_two = (agent2_two, [], Done)) /\
  (runs_ok (role_handler JsonDecode.json_decode backend_hello BaseRole example_now)
     agent2_two (message_queue agent2_two) [] ->
   process_messages (role_handler JsonDecode.json_decode backend_hello BaseRole example_now)
     3 agent2_two =
   (set_queue agent2_two [], map Dispatched (message_queue agent2_two), Done)) /\
  (forall pre m post e,
   message_queue agent2_two = (pre ++ m :: post)%list ->
   runs_ok (role_handler JsonDecode.json_decode backend_hello BaseRole example_now)
     agent2_two pre (m :: post) ->
   snd (role_handler JsonDecode.json_decode backend_hello BaseRole example_now
          (set_queue agent2_two post) m) = Err e ->
   process_messages (role_handler JsonDecode.json_decode backend_hello BaseRole example_now)
     3 agent2_two = (set_queue agent2_two post, map Dispatched (pre ++ [m]), Raised e)) /\
  (runs_ok (role_handler JsonDecode.json_decode backend_hello BaseRole example_now)
     agent2_two (message_queue agent2_two) [] \/
   exists pre m post e,
     message_queue agent2_two = (pre ++ m :: post)%list /\
     runs_ok (role_handler JsonDecode.json_decode backend_hello BaseRole example_now)
       agent2_two pre (m :: post) /\
     snd (role_handler JsonDecode.json_decode backend_hello BaseRole example_now
            (set_queue agent2_two post) m) = Err e).
Proof.
  apply (process_messages_drain_once
           (role_handler JsonDecode.json_decode backend_hello BaseRole example_now)
           3 agent2_two).
  - intros a0 m. reflexivity.
  - vm_compute. lia.
Defined.

(** * Further properties of the messaging core *)

(** ** The mailbox bound *)

Lemma within_capacity_shrink (a : BaseAgent) (qu : list Message) :
  within_capacity a -> length qu <= length (message_queue a) ->
  within_capacity (set_queue a qu).
Proof.
  unfold within_capacity. cbn [set_queue max_queue_size message_queue].
  intros [H|H] Hle; [left; exact H | right; lia].
Qed.

Lemma receive_within_capacity (a : BaseAgent) (m : Message) :
  within_capacity a -> within_capacity (fst (receive_message a m)).
Proof.
  intros Hw.
  destruct (receive_message_cases a m) as [(_ & Hnf & Hr) | (e & Hr)];
    rewrite Hr; simpl; [|exact Hw].
  unfold within_capacity, queue_full in *.
  cbn [set_queue max_queue_size message_queue].
  rewrite length_app. simpl.
  apply andb_false_iff in Hnf as [H|H].
  - left. apply Z.ltb_ge. exact H.
  - right. apply Z.leb_gt in H. lia.
Qed.

Lemma deliver_within_capacity (ms : list Message) :
  forall a, within_capacity a -> within_capacity (fst (deliver a ms)).
Proof.
  induction ms as [|m ms IH]; intros a Hw; simpl; [exact Hw|].
  destruct (receive_message a m) as [a1 r] eqn:Er.
  destruct (deliver a1 ms) as [a2 evs] eqn:Ed. simpl.
  assert (Hw1 : within_capacity a1).
  { replace a1 with (fst (receive_message a m)) by (rewrite Er; reflexivity).
    apply receive_within_capacity. exact Hw. }
  specialize (IH a1 Hw1). rewrite Ed in IH. exact IH.
Qed.

Lemma process_within_capacity {R : Type}
    (h : BaseAgent -> Message -> list Message * result R) (fuel : nat) :
  forall a, within_capacity a -> within_capacity (fst (fst (process_messages h fuel a))).
Proof.
  induction fuel as [|fuel IH]; intros a Hw; simpl; [exact Hw|].
  destruct (message_queue a) as [|m rest] eqn:Eq; [exact Hw|].
  destruct (h (set_queue a rest) m) as [arr r].
  destruct (deliver (set_queue a rest) arr) as [a1 evs] eqn:Ed.
  assert (Hw1 : within_capacity a1).
  { replace a1 with (fst (deliver (set_queue a rest) arr)) by (rewrite Ed; reflexivity).
    apply deliver_within_capacity. apply within_capacity_shrink; [exact Hw|].
    rewrite Eq. simpl. lia. }
  destruct r as [v|e]; simpl; [|exact Hw1].
  specialize (IH a1 Hw1).
  destruct (process_messages h fuel a1) as [[a2 tr] o]. exact IH.
Qed.

(** ** X1
    A mailbox never holds more messages than its capacity: for every
    reachable agent whose [max_queue_size] is positive, the queue length is
    at most [max_queue_size]. *)
Theorem reachable_within_capacity (a : BaseAgent) :
  reachable a -> within_capacity a.
Proof.
  induction 1 as [id mdl size url | a m Ha IH | R h fuel a Ha IH].
  - unfold within_capacity. simpl. lia.
  - apply receive_within_capacity. exact IH.
  - apply process_within_capacity. exact IH.
Qed.

Lemma reachable_within_capacity_witness :
  within_capacity agent2_two.
Proof.
  apply reachable_within_capacity.
  change agent2_two with
    (fst (receive_message (fst (receive_message
       (mkAgent "agent2" "mistral" 100 [] "http://localhost:11434") msg_first)) msg_second)).
  apply reach_receive. apply reach_receive. apply reach_new.
Defined.

(** ** X2
    With [max_queue_size <= 0] the mailbox is unbounded: every correctly
    addressed message is appended, whatever the queue already holds. *)
Theorem receive_unbounded (a : BaseAgent) (m : Message) :
  (max_queue_size a <= 0)%Z -> receiver_id m = agent_id a ->
  receive_message a m = (set_queue a (message_queue a ++ [m])%list, Ok tt).
Proof.
  intros Hsz Hid. unfold receive_message, queue_full.
  rewrite Hid, String.eqb_refl.
  replace (0 <? max_queue_size a)%Z with false by (symmetry; apply Z.ltb_ge; lia).
  reflexivity.
Qed.

Lemma receive_unbounded_witness :
  receive_message (set_queue (BaseAgent_new "agent2" None (Some 0%Z)) [msg_first]) msg_second =
  (set_queue (BaseAgent_new "agent2" None (Some 0%Z)) [msg_first; msg_second], Ok tt).
Proof.
  exact (receive_unbounded (set_queue (BaseAgent_new "agent2" None (Some 0%Z)) [msg_first])
           msg_second ltac:(simpl; lia) eq_refl).
Defined.

(** ** X3
    [BaseAgent(agent_id)] with the default arguments has model
    ["mistral"], the local backend URL and a mailbox of 100: it admits 100
    messages addressed to it in a row and refuses the 101st with
    [QueueFullError], leaving the agent as it was. *)
Theorem default_agent_holds_100 (id : string) (ms : list Message) (m : Message) :
  length ms = 100 -> Forall (fun x => receiver_id x = id) ms -> receiver_id m = id ->
  let a := BaseAgent_new id None None in
  let a1 := fst (receive_all a ms) in
  model a = "mistral" /\ base_url a = "http://localhost:11434" /\
  all_ok (snd (receive_all a ms)) = true /\
  message_queue a1 = ms /\
  receive_message a1 m = (a1, Err (QueueFullError ("Message queue full for agent " ++ id))).
Proof.
  intros Hlen Hall Hm a a1.
  assert (Hr : receive_all a ms = (set_queue a ms, map (fun _ => Ok tt) ms)).
  { unfold a. rewrite receive_all_fits; simpl.
    - reflexivity.
    - exact Hall.
    - rewrite Hlen. lia. }
  subst a1. rewrite Hr. simpl.
  split; [reflexivity|]. split; [reflexivity|].
  split; [apply all_ok_map_ok|]. split; [reflexivity|].
  unfold receive_message, queue_full. simpl.
  rewrite Hm, String.eqb_refl, Hlen. reflexivity.
Qed.

Lemma default_agent_holds_100_witness :
  let a := BaseAgent_new "agent2" None None in
  let a1 := fst (receive_all a (repeat msg_first 100)) in
  model a = "mistral" /\ base_url a = "http://localhost:11434" /\
  all_ok (snd (receive_all a (repeat msg_first 100))) = true /\
  message_queue a1 = repeat msg_first 100 /\
  receive_message a1 msg_second =
    (a1, Err (QueueFullError ("Message queue full for agent " ++ "agent2"))).
Proof.
  apply default_agent_holds_100.
  - reflexivity.
  - simpl. repeat constructor.
  - reflexivity.
Defined.

(** ** X4
    A message built by [send_message] for agent [b] comes from the sender's
    id; [b.receive_message] admits it at the tail of the mailbox unless the
    mailbox is full (then [QueueFullError]), and every agent with another
    id refuses it with [CommunicationError], unchanged. *)
Theorem send_then_receive (a b : BaseAgent) (body : string) (mtype : option string)
    (now : datetime) (m : Message) :
  send_message a (agent_id b) body mtype now = Ok m ->
  sender_id m = agent_id a /\
  receive_message b m =
    (if queue_full b
     then (b, Err (QueueFullError ("Message queue full for agent " ++ agent_id b)))
     else (set_queue b (message_queue b ++ [m])%list, Ok tt)) /\
  (forall c, agent_id c <> agent_id b ->
   receive_message c m =
     (c, Err (CommunicationError ("Message intended for " ++ agent_id b ++
                                  ", not " ++ agent_id c)))).
Proof.
  intros Hs.
  assert (Hm : m = {| sender_id := agent_id a; receiver_id := agent_id b; content := body;
                      message_type := match mtype with Some t => t | None => "general" end;
                      timestamp := isoformat now |})
    by (destruct mtype; simpl in Hs; inversion Hs; reflexivity).
  subst m. split; [reflexivity|]. split.
  - unfold receive_message. simpl. rewrite String.eqb_refl. reflexivity.
  - intros c Hc. unfold receive_message. simpl.
    destruct (String.eqb (agent_id b) (agent_id c)) eqn:E; [|reflexivity].
    apply String.eqb_eq in E. congruence.
Qed.

(** [test_base_agent]: [agent1] sends to [agent2], which admits the message. *)
Lemma send_then_receive_witness :
  exists m,
  send_message (BaseAgent_new "agent1" None None) "agent2" "Hello from agent1!" None
    example_now = Ok m /\
  sender_id m = "agent1" /\
  receive_message (BaseAgent_new "agent2" None None) m =
    (set_queue (BaseAgent_new "agent2" None None) [m], Ok tt) /\
  (forall c, agent_id c <> "agent2" ->
   receive_message c m =
     (c, Err (CommunicationError ("Message intended for " ++ "agent2" ++
                                  ", not " ++ agent_id c)))).
Proof.
  eexists. split; [reflexivity|].
  refine (send_then_receive (BaseAgent_new "agent1" None None)
            (BaseAgent_new "agent2" None None) "Hello from agent1!" None example_now
            _ eq_refl).
Defined.

(** ** Draining with handlers that do not raise *)

Lemma drain_all_ok {R : Type}
    (h : BaseAgent -> Message -> list Message * result R) (fuel : nat) :
  forall a,
  (forall a0 m, In m (message_queue a) -> exists v, h a0 m = ([], Ok v)) ->
  length (message_queue a) < fuel ->
  process_messages h fuel a = (set_queue a [], map Dispatched (message_queue a), Done).
Proof.
  induction fuel as [|fuel IH]; intros a Hh Hlen; [lia|].
  simpl. destruct (message_queue a) as [|m rest] eqn:Eq.
  - rewrite <- Eq, set_queue_same, Eq. reflexivity.
  - destruct (Hh (set_queue a rest) m (or_introl eq_refl)) as [v Hv].
    rewrite Hv. simpl.
    rewrite IH.
    + agent_simpl. reflexivity.
    + agent_simpl. intros a0 m' Hin. apply Hh. right. exact Hin.
    + agent_simpl. simpl in Hlen. lia.
Qed.

(** ** X5
    A [QuestionAgent]'s handler never raises and returns [None], so
    [process_messages] on a question agent dispatches every message of its
    mailbox in order, empties it and returns normally. *)
Theorem question_agent_drains (json_loads : string -> result json)
    (backend : string -> string -> string -> result string) (now : datetime)
    (fuel : nat) (a : BaseAgent) :
  length (message_queue a) < fuel ->
  (forall m, handle_message json_loads backend QuestionRole now a m = Ok None) /\
  process_messages (role_handler json_loads backend QuestionRole now) fuel a =
    (set_queue a [], map Dispatched (message_queue a), Done).
Proof.
  intros Hlen. split; [reflexivity|].
  apply drain_all_ok; [|exact Hlen].
  intros a0 m _. exists None. reflexivity.
Qed.

Lemma question_agent_drains_witness :
  (forall m, handle_message JsonDecode.json_decode backend_down QuestionRole example_now
               agent2_two m = Ok None) /\
  process_messages (role_handler JsonDecode.json_decode backend_down QuestionRole example_now)
    3 agent2_two =
    (set_queue agent2_two [], [Dispatched msg_first; Dispatched msg_second], Done).
Proof.
  exact (question_agent_drains JsonDecode.json_decode backend_down example_now 3 agent2_two
           ltac:(simpl; lia)).
Defined.

(** ** X6
    [BaseAgent.process_messages] on a non-empty mailbox takes the first
    message, raises [NotImplementedError] from the base handler, and leaves
    the remaining messages in the mailbox. *)
Theorem base_agent_process_raises (json_loads : string -> result json)
    (backend : string -> string -> string -> result string) (now : datetime)
    (fuel : nat) (a : BaseAgent) (m : Message) (rest : list Message) :
  process_messages (role_handler json_loads backend BaseRole now) (S fuel)
    (set_queue a (m :: rest)) =
  (set_queue a rest, [Dispatched m], Raised NotImplementedError).
Proof. simpl. agent_simpl. reflexivity. Qed.

(** ** X7
    An [AnswerAgent]'s handler returns [None] for a message whose type is
    not ["question"], whatever the backend does (it is not contacted); so an
    answer agent whose mailbox holds no question drains it completely, in
    order, without raising. *)
Theorem answer_agent_ignores_non_questions (json_loads : string -> result json)
    (backend : string -> string -> string -> result string) (now : datetime)
    (fuel : nat) (a : BaseAgent) :
  (forall a0 m, message_type m <> "question" ->
   handle_message json_loads backend AnswerRole now a0 m = Ok None) /\
  (Forall (fun x => message_type x <> "question") (message_queue a) ->
   length (message_queue a) < fuel ->
   process_messages (role_handler json_loads backend AnswerRole now) fuel a =
     (set_queue a [], map Dispatched (message_queue a), Done)).
Proof.
  assert (Hh : forall a0 m, message_type m <> "question" ->
               handle_message json_loads backend AnswerRole now a0 m = Ok None).
  { intros a0 m Hm. simpl.
    destruct (String.eqb (message_type m) "question") eqn:E; [|reflexivity].
    apply String.eqb_eq in E. contradiction. }
  split; [exact Hh|].
  intros Hall Hlen. apply drain_all_ok; [|exact Hlen].
  intros a0 m Hin. exists None. unfold role_handler. rewrite Hh; [reflexivity|].
  rewrite Forall_forall in Hall. apply Hall. exact Hin.
Qed.

Lemma answer_agent_ignores_non_questions_witness :
  handle_message JsonDecode.json_decode backend_down AnswerRole example_now
    agent2_two msg_first = Ok None /\
  process_messages (role_handler JsonDecode.json_decode backend_down AnswerRole example_now)
    3 agent2_two =
    (set_queue agent2_two [], [Dispatched msg_first; Dispatched msg_second], Done).
Proof.
  destruct (answer_agent_ignores_non_questions JsonDecode.json_decode backend_down
              example_now 3 agent2_two) as [H1 H2].
  split.
  - apply H1. discriminate.
  - apply H2; [|simpl; lia].
    repeat constructor; discriminate.
Defined.

(** ** The answer agent's handler *)

Lemma generate_answer_set_queue (json_loads : string -> result json)
    (backend : string -> string -> string -> result string) (a : BaseAgent)
    (qu : list Message) (question : string) :
  generate_answer json_loads backend (set_queue a qu) question =
  generate_answer json_loads backend a question.
Proof. reflexivity. Qed.

(** ** X8
    On a ["question"] message, when [generate_answer] on its content
    returns [s], the answer agent's handler returns the reply from the
    answer agent to the question's sender, with content [s] and type
    ["answer"]; the questioner's [receive_message] admits that reply
    whenever its mailbox is not full. *)
Theorem answer_reply_addressed_to_sender (json_loads : string -> result json)
    (backend : string -> string -> string -> result string) (now : datetime)
    (a : BaseAgent) (m : Message) (s : string) :
  message_type m = "question" ->
  generate_answer json_loads backend a (content m) = Ok s ->
  let reply := {| sender_id := agent_id a; receiver_id := sender_id m; content := s;
                  message_type := "answer"; timestamp := isoformat now |} in
  handle_message json_loads backend AnswerRole now a m = Ok (Some reply) /\
  (forall qa, agent_id qa = sender_id m -> queue_full qa = false ->
   receive_message qa reply = (set_queue qa (message_queue qa ++ [reply])%list, Ok tt)).
Proof.
  intros Ht Hg reply. split.
  - simpl. rewrite Ht, String.eqb_refl. rewrite Hg. reflexivity.
  - intros qa Hid Hnf. unfold receive_message. simpl.
    rewrite <- Hid, String.eqb_refl, Hnf. reflexivity.
Qed.

Lemma answer_reply_addressed_to_sender_witness :
  handle_message JsonDecode.json_decode backend_hello AnswerRole example_now
    (BaseAgent_new "answerer" None None) question_msg =
    Ok (Some {| sender_id := "answerer"; receiver_id := "questioner"; content := "Hello";
                message_type := "answer"; timestamp := isoformat example_now |}) /\
  (forall qa, agent_id qa = "questioner" -> queue_full qa = false ->
   receive_message qa {| sender_id := "answerer"; receiver_id := "questioner";
                         content := "Hello"; message_type := "answer";
                         timestamp := isoformat example_now |} =
   (set_queue qa (message_queue qa ++
      [{| sender_id := "answerer"; receiver_id := "questioner"; content := "Hello";
          message_type := "answer"; timestamp := isoformat example_now |}])%list, Ok tt)).
Proof.
  exact (answer_reply_addressed_to_sender JsonDecode.json_decode backend_hello example_now
           (BaseAgent_new "answerer" None None) question_msg "Hello"
           eq_refl ltac:(vm_compute; reflexivity)).
Defined.

(** ** X9
    When [generate_answer] raises on a question (a backend or transport
    error from httpx, or a decoding error), the answer agent's handler
    raises that same exception, not wrapped.  Whatever other tasks deliver
    to the answer agent while it waits on the backend, the drain then stops
    with that exception: the question is gone from the mailbox, nothing
    more is dispatched, and the mailbox holds the messages that were after
    the question followed by those admitted meanwhile. *)
Theorem answer_error_propagates (json_loads : string -> result json)
    (backend : string -> string -> string -> result string) (now : datetime)
    (h : BaseAgent -> Message -> list Message * result (option Message))
    (fuel : nat) (a : BaseAgent) (m : Message) (rest : list Message) (e : exn)
    (a1 : BaseAgent) (evs : list event) :
  (forall a0 m0, snd (h a0 m0) = handle_message json_loads backend AnswerRole now a0 m0) ->
  message_type m = "question" ->
  generate_answer json_loads backend a (content m) = Err e ->
  deliver (set_queue a rest) (fst (h (set_queue a rest) m)) = (a1, evs) ->
  handle_message json_loads backend AnswerRole now a m = Err e /\
  process_messages h (S fuel) (set_queue a (m :: rest)) = (a1, Dispatched m :: evs, Raised e) /\
  message_queue a1 = (rest ++ enqueued evs)%list /\ dispatched evs = [].
Proof.
  intros Hh Ht Hg Hd.
  assert (Hhm : forall qu, handle_message json_loads backend AnswerRole now
                             (set_queue a qu) m = Err e).
  { intros qu. simpl. rewrite Ht, String.eqb_refl.
    rewrite generate_answer_set_queue, Hg. reflexivity. }
  destruct (deliver_spec _ _ _ _ Hd) as (Ha1 & Hdis & _).
  split; [rewrite <- (set_queue_same a); apply Hhm|].
  split; [|rewrite Ha1; agent_simpl; auto].
  destruct (h (set_queue a rest) m) as [arr r] eqn:Eh.
  assert (r = Err e) as ->.
  { rewrite <- (Hhm rest), <- Hh, Eh. reflexivity. }
  apply (process_step_raise h fuel (set_queue a (m :: rest)) m rest arr e a1 evs);
    agent_simpl; auto.
Qed.

(** [test_qa_agents] with the model server down, while the question is
    delivered again during the wait: the timeout escapes and the copy
    stays in the mailbox. *)
Lemma answer_error_propagates_witness :
  handle_message JsonDecode.json_decode backend_down AnswerRole example_now
    (BaseAgent_new "answerer" None None) question_msg = Err (HTTPXError "timed out") /\
  process_messages
    (fun a0 m0 => ([question_msg],
                   handle_message JsonDecode.json_decode backend_down AnswerRole
                     example_now a0 m0))
    1 (set_queue (BaseAgent_new "answerer" None None) [question_msg]) =
  (set_queue (BaseAgent_new "answerer" None None) [question_msg],
   [Dispatched question_msg; Enqueued question_msg], Raised (HTTPXError "timed out")) /\
  message_queue (set_queue (BaseAgent_new "answerer" None None) [question_msg]) =
    ([] ++ enqueued [Enqueued question_msg])%list /\
  dispatched [Enqueued question_msg] = [].
Proof.
  apply (answer_error_propagates JsonDecode.json_decode backend_down example_now
           (fun a0 m0 => ([question_msg],
                          handle_message JsonDecode.json_decode backend_down AnswerRole
                            example_now a0 m0))
           0 (BaseAgent_new "answerer" None None) question_msg [] (HTTPXError "timed out")).
  - intros a0 m0. reflexivity.
  - reflexivity.
  - vm_compute. reflexivity.
  - vm_compute. reflexivity.
Defined.

(** ** The generation client *)

Lemma rstrip_idem (s : string) : rstrip (rstrip s) = rstrip s.
Proof.
  induction s as [|c s IH]; [reflexivity|].
  cbn [rstrip].
  destruct (String.eqb (rstrip s) "" && is_space c) eqn:E; [reflexivity|].
  cbn [rstrip]. rewrite IH, E. reflexivity.
Qed.

Lemma lstrip_shape (s : string) :
  lstrip s = "" \/ exists c r, lstrip s = String c r /\ is_space c = false.
Proof.
  induction s as [|c s IH]; simpl; [auto|].
  destruct (is_space c) eqn:E; [exact IH|]. right. eauto.
Qed.

Lemma strip_idem (s : string) : strip (strip s) = strip s.
Proof.
  unfold strip.
  destruct (lstrip_shape s) as [H | (c & r & H & Hc)]; rewrite H; [reflexivity|].
  cbn [rstrip]. rewrite Hc, andb_false_r.
  cbn [lstrip]. rewrite Hc.
  cbn [rstrip]. rewrite rstrip_idem, Hc, andb_false_r. reflexivity.
Qed.

(** ** X10
    The text returned by [generate_question] and [generate_answer] is
    always trimmed: applying [str.strip] to it changes nothing. *)
Theorem generated_text_trimmed (json_loads : string -> result json)
    (backend : string -> string -> string -> result string) (a : BaseAgent)
    (topic question s : string) :
  (generate_question json_loads backend a topic = Ok s -> strip s = s) /\
  (generate_answer json_loads backend a question = Ok s -> strip s = s).
Proof.
  assert (Hr : forall text, read_stream json_loads text = Ok s -> strip s = s).
  { intros text. unfold read_stream.
    destruct (assemble json_loads "" (split_nl (strip text))) as [acc|e]; simpl;
      [|discriminate].
    intros H. inversion H. apply strip_idem. }
  unfold generate_question, generate_answer.
  split; destruct (backend _ _ _) as [text|e]; simpl; try discriminate; apply Hr.
Qed.

(** ** X11
    A backend reply that is empty or only whitespace makes
    [generate_question] and [generate_answer] return the empty string
    without decoding anything. *)
Theorem whitespace_reply_empty (json_loads : string -> result json)
    (backend : string -> string -> string -> result string) (a : BaseAgent)
    (topic question text : string) :
  all_space text = true ->
  read_stream json_loads text = Ok "" /\
  (backend (base_url a ++ "/api/generate") (model a)
     ("Generate a thought-provoking question about: " ++ topic) = Ok text ->
   generate_question json_loads backend a topic = Ok "") /\
  (backend (base_url a ++ "/api/generate") (model a)
     ("Please answer this question: " ++ question) = Ok text ->
   generate_answer json_loads backend a question = Ok "").
Proof.
  intros Hs.
  assert (Hr : read_stream json_loads text = Ok "").
  { unfold read_stream, strip. rewrite (lstrip_space text Hs). reflexivity. }
  split; [exact Hr|].
  split; intros Hb; [unfold generate_question | unfold generate_answer];
    rewrite Hb; exact Hr.
Qed.

Lemma whitespace_reply_empty_witness :
  read_stream JsonDecode.json_decode (" " ++ nl ++ nl) = Ok "" /\
  (backend_down ("http://localhost:11434" ++ "/api/generate") "mistral"
     ("Generate a thought-provoking question about: " ++ "t") = Ok (" " ++ nl ++ nl) ->
   generate_question JsonDecode.json_decode backend_down
     (BaseAgent_new "questioner" None None) "t" = Ok "") /\
  (backend_down ("http://localhost:11434" ++ "/api/generate") "mistral"
     ("Please answer this question: " ++ "q") = Ok (" " ++ nl ++ nl) ->
   generate_answer JsonDecode.json_decode backend_down
     (BaseAgent_new "answerer" None None) "q" = Ok "").
Proof.
  exact (whitespace_reply_empty JsonDecode.json_decode backend_down
           (BaseAgent_new "questioner" None None) "t" "q" (" " ++ nl ++ nl)
           ltac:(vm_compute; reflexivity)).
Defined.

(** ** X12
    In the line loop of [generate_question] / [generate_answer], a record
    whose [response] field is not text (a number, [null], a list, an
    object...) makes the call raise [TypeError], wherever the line occurs. *)
Theorem non_text_response_type_error (json_loads : string -> result json)
    (acc line : string) (rest : list string) (kvs : list (string * json)) (v : json) :
  line <> "" -> json_loads line = Ok (JObj kvs) -> response_field kvs = Some v ->
  (forall s, v <> JStr s) ->
  assemble json_loads acc (line :: rest) = Err TypeError.
Proof.
  intros Hne Hj Hf Hv. cbn [assemble].
  destruct (String.eqb line "") eqn:E; [apply String.eqb_eq in E; contradiction|].
  rewrite Hj. cbn [bind py_contains py_getitem].
  unfold response_field in Hf.
  destruct (find (fun kv : string * json => String.eqb (fst kv) "response") (rev kvs))
    as [kv|] eqn:Ef; [|discriminate].
  injection Hf as Hkv.
  assert (Ex : existsb (fun kv : string * json => String.eqb (fst kv) "response") kvs = true).
  { rewrite <- existsb_rev.
    destruct (existsb _ (rev kvs)) eqn:Ex; [reflexivity|].
    apply find_existsb in Ex. congruence. }
  rewrite Ex. cbn [bind]. rewrite Hkv.
  destruct v as [| | |s| |]; try reflexivity.
  exfalso. exact (Hv s eq_refl).
Qed.

Lemma non_text_response_type_error_witness :
  assemble JsonDecode.json_decode "" ["{" ++ jstr "response" ++ ":5}"] = Err TypeError.
Proof.
  apply (non_text_response_type_error JsonDecode.json_decode "" ("{" ++ jstr "response" ++ ":5}")
           [] [("response", JNum "5")] (JNum "5")).
  - discriminate.
  - vm_compute. reflexivity.
  - reflexivity.
  - discriminate.
Defined.

(** ** X13
    In the same loop, a line that decodes to something other than an
    object: a number, a boolean or [null] makes the call raise
    [TypeError]; a string raises [TypeError] when ["response"] occurs in it
    and is skipped otherwise; a list raises [TypeError] when it has the
    element ["response"] and is skipped otherwise. *)
Theorem non_record_line (json_loads : string -> result json)
    (acc line : string) (rest : list string) (d : json) :
  line <> "" -> json_loads line = Ok d ->
  ((d = JNull \/ (exists b, d = JBool b) \/ (exists n, d = JNum n)) ->
   assemble json_loads acc (line :: rest) = Err TypeError) /\
  (forall s, d = JStr s ->
   assemble json_loads acc (line :: rest) =
     if str_contains "response" s then Err TypeError else assemble json_loads acc rest) /\
  (forall xs, d = JArr xs ->
   assemble json_loads acc (line :: rest) =
     if existsb (fun v => match v with JStr s => String.eqb s "response" | _ => false end) xs
     then Err TypeError else assemble json_loads acc rest).
Proof.
  intros Hne Hj.
  assert (Hstep : assemble json_loads acc (line :: rest) =
    (has <- py_contains "response" d ;;
     if has then
       v <- py_getitem d "response" ;;
       acc' <- py_iadd_str acc v ;;
       assemble json_loads acc' rest
     else assemble json_loads acc rest)).
  { cbn [assemble].
    destruct (String.eqb line "") eqn:E; [apply String.eqb_eq in E; contradiction|].
    rewrite Hj. reflexivity. }
  rewrite Hstep. split; [|split].
  - intros [-> | [[b ->] | [n ->]]]; reflexivity.
  - intros s ->. cbn [py_contains bind].
    destruct (str_contains "response" s); reflexivity.
  - intros xs ->. cbn [py_contains bind].
    destruct (existsb _ xs); reflexivity.
Qed.

(** A line holding a JSON list of other strings is skipped. *)
Lemma non_record_line_witness :
  ((JArr [JStr "x"] = JNull \/ (exists b, JArr [JStr "x"] = JBool b) \/
    (exists n, JArr [JStr "x"] = JNum n)) ->
   assemble JsonDecode.json_decode "" ["[" ++ jstr "x" ++ "]"] = Err TypeError) /\
  (forall s, JArr [JStr "x"] = JStr s ->
   assemble JsonDecode.json_decode "" ["[" ++ jstr "x" ++ "]"] =
     if str_contains "response" s then Err TypeError
     else assemble JsonDecode.json_decode "" []) /\
  (forall xs, JArr [JStr "x"] = JArr xs ->
   assemble JsonDecode.json_decode "" ["[" ++ jstr "x" ++ "]"] =
     if existsb (fun v => match v with JStr s => String.eqb s "response" | _ => false end) xs
     then Err TypeError else assemble JsonDecode.json_decode "" []).
Proof.
  apply (non_record_line JsonDecode.json_decode "" ("[" ++ jstr "x" ++ "]") []
           (JArr [JStr "x"])).
  - discriminate.
  - vm_compute. reflexivity.
Defined.

(** ** X14
    The line loop skips empty lines: its result depends only on the
    non-empty lines, in their order. *)
Theorem blank_lines_skipped (json_loads : string -> result json) (ls : list string) :
  forall acc,
  assemble json_loads acc ls =
  assemble json_loads acc (filter (fun l => negb (String.eqb l "")) ls).
Proof.
  induction ls as [|l ls IH]; intros acc; [reflexivity|].
  cbn [assemble filter].
  destruct (String.eqb l "") eqn:E; cbn [negb]; [apply IH|].
  cbn [assemble]. rewrite E.
  destruct (json_loads l) as [data|e]; cbn [bind]; [|reflexivity].
  destruct (py_contains "response" data) as [[|]|e]; cbn [bind]; [|apply IH|reflexivity].
  destruct (py_getitem data "response") as [v|e]; cbn [bind]; [|reflexivity].
  destruct (py_iadd_str acc v) as [acc'|e]; cbn [bind]; [apply IH|reflexivity].
Qed.

(** ** X15
    [test_qa_agents] raises the exception of [generate_question] if it
    raises, else that of the answerer's [generate_answer] on the generated
    question; when both succeed it completes, and the answerer is left as
    created, with an empty mailbox. *)
Theorem test_qa_agents_outcome (json_loads : string -> result json)
    (backend : string -> string -> string -> result string) (now : datetime) :
  test_qa_agents json_loads backend now =
  match generate_question json_loads backend (BaseAgent_new "questioner" None None)
          "python programming" with
  | Err e => Err e
  | Ok question =>
      match generate_answer json_loads backend (BaseAgent_new "answerer" None None)
              question with
      | Err e => Err e
      | Ok _ => Ok (BaseAgent_new "answerer" None None)
      end
  end.
Proof.
  unfold test_qa_agents.
  destruct (generate_question json_loads backend (BaseAgent_new "questioner" None None)
              "python programming") as [qt|e]; [|reflexivity].
  cbn [bind send_message Message_new].
  unfold receive_message. simpl. agent_simpl.
  rewrite generate_answer_set_queue.
  destruct (generate_answer json_loads backend (BaseAgent_new "answerer" None None) qt);
    reflexivity.
Qed.
